(** * ign-gazebo launcher: the process supervisor of [main.cc]

    A shallow embedding of the launcher executable: the argument vectors it
    hands to its children, the flag handling after the gflags parse, the two
    forks, the signal callback, [KillProcess] and the wait for the first
    child, followed by the properties of the specification that this code
    decides.

    The operating system and the libraries the file links against (gflags,
    ignition-common's SignalHandler, libc) are not part of the repository.
    They appear here as an environment [env] that answers the system calls,
    and as the few documented rules of those libraries that [main] relies
    on; every such rule is stated where it is used.

    The model follows the supervisor process. Of a child it records the
    fork and the [execvp] that the forked branch goes on to call; the
    forked process in which [execvp] returns is followed by [main_in]. A
    termination signal that reaches the supervisor runs the callback to its
    end before the main flow resumes; such signals are taken at the
    statement boundaries of the main flow from the registration of the
    callback on, in the numbers the environment gives. A signal that arrives
    while the callback is already running is not modelled. *)

From Stdlib Require Import ZArith Lia Bool List Floats Sorted.
From stdpp Require Import base relations list strings.
Import ListNotations.

Local Open Scope string_scope.
Local Open Scope list_scope.
Local Open Scope Z_scope.

(** ** Data *)

(** The two supervised executables. *)
Inductive role := Server | Gui.

(** The two signals the launcher sends. *)
Inductive signal := SIGINT | SIGKILL.

(** The three booleans of [main] that the signal callback captures by
    reference: [sigKilled], [guiKilled], [serverKilled]. *)
Record flags := mkFlags {
  sigKilled : bool;
  guiKilled : bool;
  serverKilled : bool
}.

(** A reference to one of them ([bool &_killed] in [KillProcess]). *)
Inductive flag_ref := RefSig | RefGui | RefServer.

Definition load (r : flag_ref) (f : flags) : bool :=
  match r with
  | RefSig => sigKilled f
  | RefGui => guiKilled f
  | RefServer => serverKilled f
  end.

(** Every assignment to these variables in the source assigns [true]. *)
Definition store_true (r : flag_ref) (f : flags) : flags :=
  match r with
  | RefSig => mkFlags true (guiKilled f) (serverKilled f)
  | RefGui => mkFlags (sigKilled f) true (serverKilled f)
  | RefServer => mkFlags (sigKilled f) (guiKilled f) true
  end.

(** A [char **] vector: [None] is the null pointer. *)
Abbreviation cvec := (list (option string)).

(** What the supervisor does that is visible from outside, one entry per
    call, in program order. *)
Inductive event :=
| EvHelp                                   (* Help() *)
| EvVersion                                (* Version() *)
| EvSetVerbosity (level : Z)               (* Console::SetVerbosity *)
| EvFork (r : role) (ret : Z)              (* fork(), value seen by the parent *)
| EvExec (r : role) (file : option string) (args : cvec)
                                           (* in the child: setpgid(0, 0);
                                              execvp(file, args) *)
| EvKill (pid : Z) (sig : signal)          (* kill(pid, sig) *)
| EvWaitpid (pid : Z) (ret : Z)            (* waitpid(pid, &status, WNOHANG) *)
| EvSleep (secs : float)                   (* Time::Sleep *)
| EvErr (text : string) (name : string)    (* ignerr line *)
| EvStore (r : flag_ref)                   (* r = true *)
| EvWait (ret : Z) (status : Z)            (* wait(&child_exit_status) *)
| EvRaise (sig : signal).                  (* std::raise *)

(** The answers of the operating system. *)
Record env := mkEnv {
  (* fork() in the parent: the child's pid, or [None] when it fails (-1). *)
  fork_ret : role -> option positive;
  (* the k-th call of waitpid(pid, _, WNOHANG) of the run returns this. *)
  waitpid_ret : nat -> Z -> Z;
  (* wait(): the pid it returns and the status word it stores. *)
  wait_ret : Z * Z;
  (* how many termination signals are delivered to the supervisor at the
     k-th point of the main flow where the callback is installed. *)
  async : nat -> nat;
  (* the value an unassigned [pid_t] happens to hold. *)
  indeterminate : role -> Z
}.

(** The state of the supervisor process. Each trace entry carries the value
    of the three flags right after the call it records. *)
Record state := mkState {
  fl : flags;
  serverPid : Z;
  guiPid : Z;
  polls : nat;
  trace : list (event * flags)
}.

Definition log (e : event) (st : state) : state :=
  mkState (fl st) (serverPid st) (guiPid st) (polls st)
          (trace st ++ [(e, fl st)]).

Definition store (r : flag_ref) (st : state) : state :=
  log (EvStore r)
      (mkState (store_true r (fl st)) (serverPid st) (guiPid st) (polls st)
               (trace st)).

Definition pid_of (r : role) (st : state) : Z :=
  match r with Server => serverPid st | Gui => guiPid st end.

(** ** [VerbosityValidator] *)

Definition VerbosityValidator (_value : Z) : bool :=
  (0 <=? _value) && (_value <=? 4).

(** ** [KillProcess] *)

(** [double sleepSecs = 0.001]: the double nearest to 1/1000. *)
Definition sleepSecs : float := 0x1.0624dd2f1a9fcp-10%float.

(** A finite double as an integer, rounded toward zero. *)
Definition trunc (x : float) : Z :=
  match Prim2SF x with
  | S754_finite s m e =>
      let a := Z.shiftl (Zpos m) e in if s then - a else a
  | _ => 0
  end.

(** [(unsigned int)(_timeout / sleepSecs)]: the bound of the polling loop.
    The conversion is defined in C++ for quotients in (-1, 2^32); the only
    caller passes 5.0. *)
Definition poll_bound (_timeout : float) : nat :=
  Z.to_nat (trunc (_timeout / sleepSecs)%float).

(** One call of waitpid: the environment answers, the call is counted. *)
Definition waitpid (E : env) (pid : Z) (st : state) : Z * state :=
  let p := waitpid_ret E (polls st) pid in
  (p, log (EvWaitpid pid p)
          (mkState (fl st) (serverPid st) (guiPid st) (S (polls st))
                   (trace st))).

(** The [for] loop of [KillProcess], with [n] iterations left. *)
Fixpoint poll_loop (E : env) (_pid : Z) (_killed : flag_ref) (n : nat)
    (st : state) : state :=
  match n with
  | O => st
  | S n' =>
      if load _killed (fl st) then st
      else
        let '(p, st1) := waitpid E _pid st in
        if p =? _pid then store _killed st1
        else poll_loop E _pid _killed n' (log (EvSleep sleepSecs) st1)
  end.

Definition KillProcess (E : env) (_pid : Z) (_name : string)
    (_timeout : float) (_killed : flag_ref) (st : state) : state :=
  let st1 := log (EvKill _pid SIGINT) st in
  let st2 := poll_loop E _pid _killed (poll_bound _timeout) st1 in
  if load _killed (fl st2) then st2
  else log (EvKill _pid SIGKILL) (log (EvErr "Escalating to SIGKILL on" _name) st2).

(** The calls of one polling window: [n] rounds of waitpid and sleep, the
    waitpid calls numbered from [k0]. *)
Definition window (E : env) (pid : Z) (k0 n : nat) : list event :=
  flat_map (fun k => [EvWaitpid pid (waitpid_ret E k pid); EvSleep sleepSecs])
           (seq k0 n).

(** ** The command line *)

(** The state of the flags after [gflags::ParseCommandLineNonHelpFlags].
    gflags is a library outside the repository, so its reading of the
    argument strings is taken as given. A flag of type int32 is [None] while
    gflags reports [is_default], and [Some x] once the command line gave it
    the value [x]. [-z], [--iterations], [-f] and [-r] are defined but
    never read by [main]. *)
Record cmdline := mkCmdline {
  FLAGS_h : bool;
  FLAGS_help : bool;
  FLAGS_version : bool;
  FLAGS_verbose : option Z;
  FLAGS_v : option Z;
  FLAGS_s : bool;
  FLAGS_g : bool
}.

(** gflags runs a registered validator on every value the command line gives
    to its flag; when one answers false the parse reports the flag and
    leaves through [exit(1)]. *)
Definition validated (f : option Z) : bool :=
  match f with
  | Some x => VerbosityValidator x
  | None => true
  end.

Definition ParseCommandLineNonHelpFlags (c : cmdline) : bool :=
  validated (FLAGS_verbose c) && validated (FLAGS_v c).

(** The value of [FLAGS_verbose] after the "Verbosity" block of [main]. *)
Definition verbosity (c : cmdline) : Z :=
  match FLAGS_verbose c with
  | Some x => x
  | None =>
      match FLAGS_v c with
      | Some y => y
      | None => 1
      end
  end.

(** ** The children's argument vectors *)

Definition exe_name (r : role) : string :=
  match r with
  | Server => "ign-gazebo-server"
  | Gui => "ign-gazebo-gui"
  end.

(** [for (int i = 1; i < _argc; ++i) a[i] = _argv[i];] with [n] iterations
    left. *)
Fixpoint copy_loop (_argv : list string) (i n : nat) (a : cvec) : cvec :=
  match n with
  | O => a
  | S n' => copy_loop _argv (S i) n' (<[i := _argv !! i]> a)
  end.

(** The three groups of assignments to one of the two arrays. *)
Definition fill_argv (name : string) (_argv : list string) (a : cvec) : cvec :=
  let _argc := length _argv in
  let a := <[0%nat := Some name]> a in
  let a := copy_loop _argv 1 (_argc - 1) a in
  <[_argc := None]> a.

(** [new char*[_argc+1]], then the assignments. *)
Definition child_argv (r : role) (_argv : list string) : cvec :=
  fill_argv (exe_name r) _argv (replicate (S (length _argv)) None).

(** ** Launching *)

Definition set_pid (r : role) (p : Z) (st : state) : state :=
  match r with
  | Server => mkState (fl st) p (guiPid st) (polls st) (trace st)
  | Gui => mkState (fl st) (serverPid st) p (polls st) (trace st)
  end.

(** [pid = fork(); if (pid == 0) { setpgid(pid, 0); execvp(a[0], a); }]
    as the supervisor sees it: [fork] returns the pid of the child, or -1,
    and the child, where it returned 0, runs the branch. *)
Definition spawn (E : env) (r : role) (a : cvec) (st : state) : state :=
  match fork_ret E r with
  | Some p =>
      set_pid r (Zpos p)
        (log (EvExec r (default None (a !! 0%nat)) a)
             (log (EvFork r (Zpos p)) st))
  | None => set_pid r (-1) (log (EvFork r (-1)) st)
  end.

(** ** The signal callback *)

Definition callback (E : env) (c : cmdline) (st : state) : state :=
  let st := store RefSig st in
  let st :=
    if negb (FLAGS_s c)
    then KillProcess E (guiPid st) "ign-gazebo-gui" 5%float RefGui st
    else st in
  if negb (FLAGS_g c)
  then KillProcess E (serverPid st) "ign-gazebo-server" 5%float RefServer st
  else st.

(** [n] termination signals reach the supervisor one after the other; the
    SignalHandler of ignition-common runs the callback once for each, and
    the main flow resumes when it returns. *)
Definition deliver (E : env) (c : cmdline) (n : nat) (st : state) : state :=
  Nat.iter n (callback E c) st.

(** ** Waiting for the first child *)

(** The status macros of <sys/wait.h> on Linux. *)
Definition WIFEXITED (s : Z) : bool := Z.land s 127 =? 0.
Definition WEXITSTATUS (s : Z) : Z := Z.shiftr (Z.land s 65280) 8.

(** How the kernel builds the word, [__W_EXITCODE(ret, sig)]. *)
Definition W_EXITCODE (ret sig : Z) : Z := Z.lor (Z.shiftl ret 8) sig.

(** From the registration of the callback to the test of [sigKilled]:
    [wait], the return value, the flag of the child that [wait] returned.
    Signals may arrive while [wait] blocks and between the statements that
    follow. *)
Definition reap (E : env) (c : cmdline) (st : state) : Z * state :=
  let st := deliver E c (async E 0) st in
  let '(deadChild, child_exit_status) := wait_ret E in
  let st := log (EvWait deadChild child_exit_status) st in
  let returnValue :=
    if negb (WIFEXITED child_exit_status)
       || negb (WEXITSTATUS child_exit_status =? 0)
    then -1 else 0 in
  let st := deliver E c (async E 1) st in
  let st :=
    if deadChild =? guiPid st then store RefGui st
    else if deadChild =? serverPid st then store RefServer st
    else st in
  let st := deliver E c (async E 2) st in
  (returnValue, st).

(** The rest of [main]: [if (!sigKilled) std::raise(SIGINT);] and the
    return. [std::raise] runs the callback before it returns; a signal may
    still arrive between the test and the call, and after it. *)
Definition supervise (E : env) (c : cmdline) (st : state) : Z * state :=
  let '(returnValue, st) := reap E c st in
  let unsignalled := negb (sigKilled (fl st)) in
  let st := deliver E c (async E 3) st in
  let st :=
    if unsignalled then callback E c (log (EvRaise SIGINT) st) else st in
  let st := deliver E c (async E 4) st in
  (returnValue, st).

(** ** [main] *)

(** How the process ends: [main] returns, or gflags exits. *)
Inductive outcome :=
| Return (code : Z)
| Exit (code : Z).

Definition init_state (E : env) : state :=
  mkState (mkFlags false false false)
          (indeterminate E Server) (indeterminate E Gui) 0 [].

Definition main (E : env) (_argv : list string) (c : cmdline)
    : outcome * state :=
  let st := init_state E in
  let argvServer := child_argv Server _argv in
  let argvGui := child_argv Gui _argv in
  if negb (ParseCommandLineNonHelpFlags c) then (Exit 1, st)
  else
    let showHelp := FLAGS_h c || FLAGS_help c in
    let showVersion := FLAGS_version c in
    let verbose := verbosity c in
    if showHelp then (Return 0, log EvHelp st)
    else if showVersion then (Return 0, log EvVersion st)
    else
      let st := log (EvSetVerbosity verbose) st in
      let st := if negb (FLAGS_g c) then spawn E Server argvServer st else st in
      let st := if negb (FLAGS_s c) then spawn E Gui argvGui st else st in
      let '(returnValue, st) := supervise E c st in
      (Return returnValue, st).

(** ** Reading a run *)

Definition events (st : state) : list event := map fst (trace st).
Definition snapshots (st : state) : list flags := map snd (trace st).

(** The two entries that belong to the launch of a child. *)
Definition is_launch (e : event) : bool :=
  match e with
  | EvFork _ _ | EvExec _ _ _ => true
  | _ => false
  end.

(** The roles for which [fork] was called, in order. *)
Definition forked (l : list event) : list role :=
  flat_map (fun e => match e with EvFork r _ => [r] | _ => [] end) l.

(** A flag that is set stays set. *)
Definition flags_le (a b : flags) : Prop :=
  forall r, load r a = true -> load r b = true.

(** The number of places where a sequence of booleans goes from false to
    true, and from true to false. *)
Fixpoint rises (l : list bool) : nat :=
  match l with
  | a :: (b :: _) as t => (if negb a && b then 1 else 0) + rises t
  | _ => 0
  end.

Fixpoint falls (l : list bool) : nat :=
  match l with
  | a :: (b :: _) as t => (if a && negb b then 1 else 0) + falls t
  | _ => 0
  end.

(** The run passes the parse and asks for neither help nor version. *)
Definition launches (c : cmdline) : bool :=
  ParseCommandLineNonHelpFlags c
  && negb (FLAGS_h c || FLAGS_help c) && negb (FLAGS_version c).

(** The state of such a run when the callback is installed, that is
    [main] up to there. *)
Definition launched (E : env) (_argv : list string) (c : cmdline) : state :=
  let st := log (EvSetVerbosity (verbosity c)) (init_state E) in
  let st :=
    if negb (FLAGS_g c) then spawn E Server (child_argv Server _argv) st
    else st in
  if negb (FLAGS_s c) then spawn E Gui (child_argv Gui _argv) st else st.

(** No flag has been assigned yet. *)
Definition pristine (st : state) : Prop :=
  fl st = mkFlags false false false /\
  Forall (fun x => snd x = mkFlags false false false) (trace st).

(** The Mode Resolver as [main] writes it: the server is forked under
    [!FLAGS_g], the GUI under [!FLAGS_s]. *)
Definition planned (c : cmdline) (r : role) : bool :=
  match r with
  | Server => negb (FLAGS_g c)
  | Gui => negb (FLAGS_s c)
  end.

(** The pid variable of a role after its fork. *)
Definition child_pid (E : env) (r : role) : Z :=
  match fork_ret E r with
  | Some p => Zpos p
  | None => -1
  end.

(** The entries of one launch. *)
Definition spawn_events (E : env) (r : role) (_argv : list string)
    : list event :=
  let a := child_argv r _argv in
  match fork_ret E r with
  | Some p => [EvFork r (Zpos p); EvExec r (default None (a !! 0%nat)) a]
  | None => [EvFork r (-1)]
  end.

Definition flag_ref_eqb (a b : flag_ref) : bool :=
  match a, b with
  | RefSig, RefSig | RefGui, RefGui | RefServer, RefServer => true
  | _, _ => false
  end.

(** The entries one call of [KillProcess] for the child [pid], with the
    flag [r], can add. *)
Definition of_KillProcess (pid : Z) (r : flag_ref) (e : event) : bool :=
  match e with
  | EvKill p _ => p =? pid
  | EvWaitpid p _ => p =? pid
  | EvSleep _ => true
  | EvErr _ _ => true
  | EvStore r' => flag_ref_eqb r' r
  | _ => false
  end.

(** The entries of one run of the callback when the pid variables hold
    [gpid] and [spid]: the assignment to [sigKilled], then [KillProcess]
    for the GUI, which starts with its SIGINT and goes on with [tg], then
    [KillProcess] for the server, likewise. *)
Definition relay (c : cmdline) (gpid spid : Z) (tg ts : list event)
    : list event :=
  EvStore RefSig
    :: (if negb (FLAGS_s c) then EvKill gpid SIGINT :: tg else [])
    ++ (if negb (FLAGS_g c) then EvKill spid SIGINT :: ts else []).

(** Somewhere in [l] the callback ran on the launched children. *)
Definition relayed (E : env) (c : cmdline) (l : list event) : Prop :=
  exists t1 tg ts t2,
    l = t1 ++ relay c (child_pid E Gui) (child_pid E Server) tg ts ++ t2.

(** The pid variables hold what the launch put there. *)
Definition pids_launched (E : env) (c : cmdline) (st : state) : Prop :=
  forall r, planned c r = true -> pid_of r st = child_pid E r.

(** Once [sigKilled] is set, the callback has run. *)
Definition by_relay (E : env) (c : cmdline) (st : state) : Prop :=
  pids_launched E c st /\
  (sigKilled (fl st) = true -> relayed E c (events st)).

(** ** The children reaped *)

(** [wait], and [waitpid] as [KillProcess] calls it (WNOHANG alone), return
    the pid of a child that has ended, and then the kernel hands over that
    child's status word and forgets the child; they return 0 or -1 when
    they have no child to report. *)
Definition reaped (e : event) : option Z :=
  match e with
  | EvWaitpid _ ret => if 0 <? ret then Some ret else None
  | EvWait ret _ => if 0 <? ret then Some ret else None
  | _ => None
  end.

(** The first child reaped in a run. *)
Fixpoint first_reaped (l : list event) : option Z :=
  match l with
  | [] => None
  | e :: l' =>
      match reaped e with
      | Some p => Some p
      | None => first_reaped l'
      end
  end.

(** [word p] is the status word with which the child [p] ends. [wait]
    stores the word of the child it returns into [child_exit_status];
    [waitpid] stores it into the local [status] of [KillProcess], which
    nothing reads. When [wait] fails it returns -1 and stores nothing, and
    [main] reads [child_exit_status] all the same: the second component of
    [wait_ret] is then what the variable happens to hold. *)
Definition wait_stores (word : Z -> Z) (E : env) : Prop :=
  0 < fst (wait_ret E) -> snd (wait_ret E) = word (fst (wait_ret E)).

(** The child ended by itself with code 0. *)
Definition exited_0 (s : Z) : bool := WIFEXITED s && (WEXITSTATUS s =? 0).

(** The state of a launching run when [wait] returns. *)
Definition before_wait (E : env) (_argv : list string) (c : cmdline) : state :=
  deliver E c (async E 0) (launched E _argv c).

(** ** Steps *)

(** What the supervisor does once the callback is installed is made of
    three kinds of steps: a call that leaves its variables alone, the
    assignment of true to one of the three flags, and a waitpid. *)
Inductive step : state -> state -> Prop :=
| step_log e st : is_launch e = false -> step st (log e st)
| step_store r st : step st (store r st)
| step_waitpid E pid st : step st (snd (waitpid E pid st)).

(** What holds of the trace and the flags in every state the supervisor
    goes through. *)
Record consistent (st : state) : Prop := mkConsistent {
  snap_sorted : StronglySorted flags_le (snapshots st);
  snap_below : Forall (fun f => flags_le f (fl st)) (snapshots st);
  snap_seen : forall r, load r (fl st) = true ->
                Exists (fun f => load r f = true) (snapshots st);
  launch_early : Forall (fun x => is_launch (fst x) = true ->
                                  sigKilled (snd x) = false) (trace st)
}.

(** ** Sample inputs *)

Definition no_flags : cmdline :=
  mkCmdline false false false None None false false.

(** Both children start, pids 100 and 200; each is found dead by the first
    waitpid on it; the server is the child that [wait] returns, exit 0. *)
Definition env_prompt : env :=
  mkEnv (fun r => match r with Server => Some 100%positive | Gui => Some 200%positive end)
        (fun _ pid => pid) (100, 0) (fun _ => 0%nat) (fun _ => 0).

(** The children never answer a waitpid. *)
Definition env_stubborn : env :=
  mkEnv (fun r => match r with Server => Some 100%positive | Gui => Some 200%positive end)
        (fun _ _ => 0) (100, 0) (fun _ => 0%nat) (fun _ => 0).

(** As [env_prompt], with one termination signal while [wait] blocks and
    the GUI as the child that [wait] returns, killed by signal 2. *)
Definition env_interrupted : env :=
  mkEnv (fun r => match r with Server => Some 100%positive | Gui => Some 200%positive end)
        (fun _ pid => pid) (200, 2)
        (fun k => match k with O => 1%nat | _ => 0%nat end) (fun _ => 0).

(** As [env_prompt], with the GUI as the child that [wait] returns. *)
Definition env_gui_exits : env :=
  mkEnv (fun r => match r with Server => Some 100%positive | Gui => Some 200%positive end)
        (fun _ pid => pid) (200, 0) (fun _ => 0%nat) (fun _ => 0).

(** A termination signal arrives while [wait] blocks. The GUI (pid 200)
    ends at once, by itself and with code 0, and the first waitpid on it
    reports it; the server (pid 100) ignores the interrupt, is never
    reported by a waitpid, and is the child that [wait] returns once
    SIGKILL (9) has ended it. *)
Definition env_signal_first : env :=
  mkEnv (fun r => match r with Server => Some 100%positive | Gui => Some 200%positive end)
        (fun _ pid => if pid =? 200 then 200 else 0) (100, 9)
        (fun k => match k with O => 1%nat | _ => 0%nat end) (fun _ => 0).

(** The status words of that run. *)
Definition words_signal_first (pid : Z) : Z :=
  if pid =? 100 then W_EXITCODE 0 9 else W_EXITCODE 0 0.

(** The command line [-s -g], and nothing else. *)
Definition s_and_g : cmdline :=
  mkCmdline false false false None None true true.

(** A state in which the GUI has already been reaped, as when [wait]
    returned it. *)
Definition st_gui_dead : state :=
  mkState (mkFlags false true false) 100 200 0 [].


(** ** Counting calls *)

Definition signal_eqb (a b : signal) : bool :=
  match a, b with
  | SIGINT, SIGINT | SIGKILL, SIGKILL => true
  | _, _ => false
  end.

Definition is_kill (sig : signal) (e : event) : bool :=
  match e with
  | EvKill _ s => signal_eqb s sig
  | _ => false
  end.

Definition is_waitpid (e : event) : bool :=
  match e with
  | EvWaitpid _ _ => true
  | _ => false
  end.

Definition is_sleep (e : event) : bool :=
  match e with
  | EvSleep _ => true
  | _ => false
  end.

Definition is_raise (e : event) : bool :=
  match e with
  | EvRaise _ => true
  | _ => false
  end.

Definition is_wait (e : event) : bool :=
  match e with
  | EvWait _ _ => true
  | _ => false
  end.

(** How many entries of [l] satisfy [p]. *)
Fixpoint tally (p : event -> bool) (l : list event) : nat :=
  match l with
  | [] => 0
  | e :: l' => (if p e then 1 else 0) + tally p l'
  end.

(** The process a call is aimed at, for the calls that take a pid. *)
Definition target (e : event) : option Z :=
  match e with
  | EvKill p _ => Some p
  | EvWaitpid p _ => Some p
  | _ => None
  end.

(** The entries the polling loop of [KillProcess] can add for the child
    [pid] with the flag [r]. *)
Definition of_poll (pid : Z) (r : flag_ref) (e : event) : bool :=
  match e with
  | EvWaitpid p _ => p =? pid
  | EvSleep _ => true
  | EvStore r' => flag_ref_eqb r' r
  | _ => false
  end.

Definition is_set_verbosity (e : event) : bool :=
  match e with
  | EvSetVerbosity _ => true
  | _ => false
  end.

(** The calls of the shutdown: what [KillProcess] and the assignments to
    the flags can add. *)
Definition is_shutdown (e : event) : bool :=
  match e with
  | EvKill _ _ | EvWaitpid _ _ | EvSleep _ | EvErr _ _ | EvStore _ => true
  | _ => false
  end.

(** A call that takes a pid is aimed at the pid variable of a planned
    child. *)
Definition own_target (E : env) (c : cmdline) (e : event) : Prop :=
  forall p, target e = Some p ->
            exists r, planned c r = true /\ p = child_pid E r.

(** [st'] continues [st] with calls of the shutdown on the launched
    children. *)
Definition shuts_down (E : env) (c : cmdline) (st st' : state) : Prop :=
  exists added,
    events st' = events st ++ added /\
    Forall (fun e => is_shutdown e = true /\ own_target E c e) added.

(** ** The forked child whose [execvp] returns *)

(** The branch [if (pid == 0)] of [main] ends with [execvp], and [execvp]
    returns only when it fails: the forked process then leaves the branch
    and runs the rest of [main] itself, with 0 in the pid variable that its
    [fork] assigned and, in the other one, what the process it was copied
    from held there. [as_child] tells [spawn_in] that the process followed
    is the one this fork created; otherwise it is the one that called
    [fork], as in [spawn]. *)
Definition spawn_in (E : env) (as_child : bool) (r : role) (a : cvec)
    (st : state) : state :=
  if as_child
  then set_pid r 0
         (log (EvExec r (default None (a !! 0%nat)) a) (log (EvFork r 0) st))
  else spawn E r a st.

(** [main] in any of the processes that can run it to its end: the
    supervisor ([as_child] false for both roles) and the forked children
    whose [execvp] returned. The trace is the one of the path that leads to
    the process followed, what its ancestors did before its fork first, and
    [E] answers the system calls along that path. [kill(0, sig)] signals
    the process group of the caller, the caller included: of a run that
    sends SIGKILL there, only the part up to that call takes place. *)
Definition main_in (E : env) (as_child : role -> bool) (_argv : list string)
    (c : cmdline) : outcome * state :=
  let st := init_state E in
  let argvServer := child_argv Server _argv in
  let argvGui := child_argv Gui _argv in
  if negb (ParseCommandLineNonHelpFlags c) then (Exit 1, st)
  else
    let showHelp := FLAGS_h c || FLAGS_help c in
    let showVersion := FLAGS_version c in
    let verbose := verbosity c in
    if showHelp then (Return 0, log EvHelp st)
    else if showVersion then (Return 0, log EvVersion st)
    else
      let st := log (EvSetVerbosity verbose) st in
      let st :=
        if negb (FLAGS_g c)
        then spawn_in E (as_child Server) Server argvServer st else st in
      let st :=
        if negb (FLAGS_s c)
        then spawn_in E (as_child Gui) Gui argvGui st else st in
      let '(returnValue, st) := supervise E c st in
      (Return returnValue, st).







(** The server child of the supervisor finds no executable. It forks a
    GUI of its own (pid 300), which exits at once with code 0; it has no
    child in its own process group, so that waitpid fails on 0. *)
Definition env_exec_fails : env :=
  mkEnv (fun _ => Some 300%positive)
        (fun _ pid => if pid =? 0 then -1 else pid) (300, 0)
        (fun _ => 0%nat) (fun _ => 0).

Definition server_child (r : role) : bool :=
  match r with Server => true | Gui => false end.

(** The fork of the GUI fails; the server starts and is the child that
    [wait] returns. *)
Definition env_gui_fork_fails : env :=
  mkEnv (fun r => match r with Server => Some 100%positive | Gui => None end)
        (fun _ pid => pid) (100, 0) (fun _ => 0%nat) (fun _ => 0).

(** * The DiffDrive system ([DiffDrive.cc]) *)

Module DiffDrive.

(** An entity is a 64-bit unsigned integer. *)
Abbreviation Entity := N.

(** What this file asks of the EntityComponentManager and of [Model].
    Both classes are declared outside the sources at hand, so they are
    parameters: [cmd] is [Component<JointVelocityCmd>] and [pos] is
    [Component<JointPosition>], with [None] for the null pointer; the data
    of both components is a vector of doubles. *)
Class Manager (ecm : Type) := {
  kNullEntity : Entity;
  Valid : ecm -> Entity -> bool;
  Name : ecm -> Entity -> string;
  JointByName : ecm -> Entity -> string -> Entity;
  cmd : ecm -> Entity -> option (list float);
  create_cmd : Entity -> list float -> ecm -> ecm;
  assign_cmd : Entity -> list float -> ecm -> ecm;
  pos : ecm -> Entity -> option (list float);
  create_pos : Entity -> list float -> ecm -> ecm
}.

(** [math::DiffDriveOdometry], a class of ignition-math, by the members
    that this file calls. *)
Class Odometer (odometry time : Type) := {
  SetWheelParams : float -> float -> float -> odometry -> odometry;
  Initialized : odometry -> bool;
  Init : time -> odometry -> odometry;
  Update : float -> float -> time -> odometry -> odometry;
  X : odometry -> float;
  Y : odometry -> float;
  Heading : odometry -> float;
  LinearVelocity : odometry -> float;
  AngularVelocity : odometry -> float
}.

(** The fields of [msgs::Odometry] that [UpdateOdometry] sets; the
    orientation is kept as the Euler angles given to the quaternion. *)
Record Odometry := mkOdometry {
  pose_position_x : float;
  pose_position_y : float;
  pose_orientation : float * float * float;
  twist_linear_x : float;
  twist_angular_z : float
}.

(** The parameters of the plugin element: the values of its [left_joint]
    and [right_joint] children in document order, and the optional
    children. *)
Record Sdf := mkSdf {
  left_joint : list string;
  right_joint : list string;
  wheel_separation : option float;
  wheel_radius : option float;
  topic : option string
}.

(** What [Configure] asks of the transport node. *)
Inductive transport :=
| Subscribe (topic : string)
| Advertise (topic : string) (msgs_per_sec : Z)
| Msg (text : string)
| Err (text : string).

(** [DiffDrivePrivate]. *)
Record data {odometry : Type} := mkData {
  leftJoints : list Entity;
  rightJoints : list Entity;
  leftJointNames : list string;
  rightJointNames : list string;
  leftJointSpeed : float;
  rightJointSpeed : float;
  wheelSeparation : float;
  wheelRadius : float;
  model : Entity;
  odom : odometry
}.
Arguments data : clear implicits.
Arguments mkData {odometry}.

Section Code.

Context {ecm odometry time : Type} `{!Manager ecm} `{!Odometer odometry time}.

(** The state a constructor leaves: the member initialisers of the class
    around a default odometry. *)
Definition fresh (o : odometry) : data odometry :=
  mkData [] [] [] [] 0%float 0%float 1%float 0x1.999999999999ap-3%float
         kNullEntity o.

Definition set_joints (l r : list Entity) (d : data odometry) : data odometry :=
  mkData l r (leftJointNames d) (rightJointNames d) (leftJointSpeed d)
         (rightJointSpeed d) (wheelSeparation d) (wheelRadius d) (model d)
         (odom d).

Definition set_odom (o : odometry) (d : data odometry) : data odometry :=
  mkData (leftJoints d) (rightJoints d) (leftJointNames d) (rightJointNames d)
         (leftJointSpeed d) (rightJointSpeed d) (wheelSeparation d)
         (wheelRadius d) (model d) o.

Definition set_speeds (l r : float) (d : data odometry) : data odometry :=
  mkData (leftJoints d) (rightJoints d) (leftJointNames d) (rightJointNames d)
         l r (wheelSeparation d) (wheelRadius d) (model d) (odom d).

(** [Configure]: the new state and the calls on the transport node. *)
Definition Configure (_entity : Entity) (_sdf : Sdf) (_ecm : ecm)
    (d : data odometry) : data odometry * list transport :=
  let d := mkData (leftJoints d) (rightJoints d) (leftJointNames d)
                  (rightJointNames d) (leftJointSpeed d) (rightJointSpeed d)
                  (wheelSeparation d) (wheelRadius d) _entity (odom d) in
  if negb (Valid _ecm (model d))
  then (d, [Err "DiffDrive plugin should be attached to a model entity. Failed to initialize."])
  else
    let lnames := leftJointNames d ++ left_joint _sdf in
    let rnames := rightJointNames d ++ right_joint _sdf in
    let sep := default (wheelSeparation d) (wheel_separation _sdf) in
    let rad := default (wheelRadius d) (wheel_radius _sdf) in
    let o := SetWheelParams sep rad rad (odom d) in
    let name := Name _ecm (model d) in
    let t := default ("/model/" +:+ name +:+ "/cmd_vel") (topic _sdf) in
    let odomTopic := "/model/" +:+ name +:+ "/odometry" in
    (mkData (leftJoints d) (rightJoints d) lnames rnames (leftJointSpeed d)
            (rightJointSpeed d) sep rad (model d) o,
     [Subscribe t; Advertise odomTopic 50;
      Msg ("DiffDrive subscribing to twist messages on [" +:+ t +:+ "]")]).

(** [OnCmdVel], on the two components of the message that it reads. The
    transport node calls it from its own thread; here a call is taken
    between two calls of [PreUpdate]. *)
Definition OnCmdVel (linVel angVel : float) (d : data odometry)
    : data odometry :=
  set_speeds
    ((linVel - angVel * wheelSeparation d / 2) / wheelRadius d)%float
    ((linVel + angVel * wheelSeparation d / 2) / wheelRadius d)%float
    d.

Definition is_empty {A} (l : list A) : bool :=
  match l with
  | [] => true
  | _ :: _ => false
  end.

(** One of the two name loops of [PreUpdate]: the joints found are pushed
    behind the ones already there. *)
Definition find_joints (_ecm : ecm) (m : Entity) (names : list string)
    (joints : list Entity) : list Entity :=
  fold_left
    (fun js name =>
       let joint := JointByName _ecm m name in
       if (joint =? kNullEntity)%N then js else js ++ [joint])
    names joints.

(** The body of one of the two velocity loops. *)
Definition write_cmd (speed : float) (_ecm : ecm) (joint : Entity) : ecm :=
  match cmd _ecm joint with
  | None => create_cmd joint [speed] _ecm
  | Some _ => assign_cmd joint [speed] _ecm
  end.

(** The result of a call: the new state, the new manager and the messages
    published; [None] when the call indexes a vector outside its bounds. *)
Definition outcome : Type := option (data odometry * ecm * list Odometry).

Definition UpdateOdometry (simTime : time) (_ecm : ecm) (d : data odometry)
    : outcome :=
  match leftJoints d !! 0%nat, rightJoints d !! 0%nat with
  | Some l0, Some r0 =>
      let leftPos := pos _ecm l0 in
      let _ecm :=
        match leftPos with
        | None => create_pos l0 [] _ecm
        | Some _ => _ecm
        end in
      let rightPos := pos _ecm r0 in
      let _ecm :=
        match rightPos with
        | None => create_pos r0 [] _ecm
        | Some _ => _ecm
        end in
      if negb (Initialized (odom d))
      then Some (set_odom (Init simTime (odom d)) d, _ecm, [])
      else
        match leftPos, rightPos with
        | Some lp, Some rp =>
            match lp !! 0%nat, rp !! 0%nat with
            | Some l, Some r =>
                let o := Update l r simTime (odom d) in
                Some (set_odom o d, _ecm,
                      [mkOdometry (X o) (Y o) (0%float, 0%float, Heading o)
                                  (LinearVelocity o) (AngularVelocity o)])
            | _, _ => None
            end
        | _, _ => Some (d, _ecm, [])
        end
  | _, _ => None
  end.

Definition PreUpdate (paused : bool) (simTime : time) (_ecm : ecm)
    (d : data odometry) : outcome :=
  let d :=
    if is_empty (leftJoints d) || is_empty (rightJoints d)
    then set_joints
           (find_joints _ecm (model d) (leftJointNames d) (leftJoints d))
           (find_joints _ecm (model d) (rightJointNames d) (rightJoints d)) d
    else d in
  if is_empty (leftJoints d) || is_empty (rightJoints d) then Some (d, _ecm, [])
  else if paused then Some (d, _ecm, [])
  else
    let _ecm := fold_left (write_cmd (leftJointSpeed d)) (leftJoints d) _ecm in
    let _ecm := fold_left (write_cmd (rightJointSpeed d)) (rightJoints d) _ecm in
    UpdateOdometry simTime _ecm d.

(** A sequence of calls of [PreUpdate], each with the pause flag, the
    time and the manager it is given: the last state, and what each call
    returned as manager and messages. *)
Fixpoint updates (calls : list (bool * time * ecm)) (d : data odometry)
    : option (data odometry * list (ecm * list Odometry)) :=
  match calls with
  | [] => Some (d, [])
  | (paused, t, m) :: rest =>
      match PreUpdate paused t m d with
      | Some (d', m', msgs) =>
          match updates rest d' with
          | Some (d'', outs) => Some (d'', (m', msgs) :: outs)
          | None => None
          end
      | None => None
      end
  end.

(** The joints that the names of a list resolve to, in order. *)
Definition resolved (_ecm : ecm) (m : Entity) (names : list string)
    : list Entity :=
  flat_map
    (fun name =>
       let joint := JointByName _ecm m name in
       if (joint =? kNullEntity)%N then [] else [joint])
    names.

(** The state after the name loops of [PreUpdate]. *)
Definition discovered (m : ecm) (d : data odometry) : data odometry :=
  if is_empty (leftJoints d) || is_empty (rightJoints d)
  then set_joints
         (leftJoints d ++ resolved m (model d) (leftJointNames d))
         (rightJoints d ++ resolved m (model d) (rightJointNames d)) d
  else d.

End Code.

(** What the properties below assume of a manager: a component that is
    created or assigned is the one found afterwards, the other entities
    keep theirs, and the two kinds of components do not interfere. *)
Class ManagerLaws (ecm : Type) `{!Manager ecm} : Prop := {
  cmd_create j v m j' :
    cmd (create_cmd j v m) j' = if (j =? j')%N then Some v else cmd m j';
  cmd_assign j v m j' :
    cmd (assign_cmd j v m) j' = if (j =? j')%N then Some v else cmd m j';
  cmd_create_pos j v m j' : cmd (create_pos j v m) j' = cmd m j';
  pos_create_cmd j v m j' : pos (create_cmd j v m) j' = pos m j';
  pos_assign_cmd j v m j' : pos (assign_cmd j v m) j' = pos m j'
}.

(** ** A sample manager and a sample odometry *)

(** A model with its joints by name and the two component tables. *)
Record world := mkWorld {
  w_valid : bool;
  w_name : string;
  w_joints : list (string * Entity);
  w_cmd : list (Entity * list float);
  w_pos : list (Entity * list float)
}.

Fixpoint assoc {K V} (eqb : K -> K -> bool) (k : K) (l : list (K * V))
    : option V :=
  match l with
  | [] => None
  | (k', v) :: l' => if eqb k k' then Some v else assoc eqb k l'
  end.

#[global] Instance world_manager : Manager world := {
  kNullEntity := 0%N;
  Valid w _ := w_valid w;
  Name w _ := w_name w;
  JointByName w _ n := default 0%N (assoc String.eqb n (w_joints w));
  cmd w j := assoc N.eqb j (w_cmd w);
  create_cmd j v w :=
    mkWorld (w_valid w) (w_name w) (w_joints w) ((j, v) :: w_cmd w) (w_pos w);
  assign_cmd j v w :=
    mkWorld (w_valid w) (w_name w) (w_joints w) ((j, v) :: w_cmd w) (w_pos w);
  pos w j := assoc N.eqb j (w_pos w);
  create_pos j v w :=
    mkWorld (w_valid w) (w_name w) (w_joints w) (w_cmd w) ((j, v) :: w_pos w)
}.

(** An odometry that remembers whether it was initialised and the last
    two positions it was given. *)
#[global] Instance pair_odometer : Odometer (bool * (float * float)) Z := {
  SetWheelParams _ _ _ o := o;
  Initialized o := fst o;
  Init _ o := (true, snd o);
  Update l r _ o := (fst o, (l, r));
  X o := fst (snd o);
  Y o := snd (snd o);
  Heading o := 0%float;
  LinearVelocity o := 0%float;
  AngularVelocity o := 0%float
}.

(** A robot with one wheel on each side, joints 7 and 8. *)
Definition two_wheels : world :=
  mkWorld true "robot" [("left_wheel", 7%N); ("right_wheel", 8%N)] [] [].

(** The same robot when the right wheel is not there yet. *)
Definition one_wheel : world :=
  mkWorld true "robot" [("left_wheel", 7%N)] [] [].

Definition two_wheels_sdf : Sdf :=
  mkSdf ["left_wheel"] ["right_wheel"] None None None.

(** The plugin of that robot after its constructor and [Configure]. *)
Definition configured : data (bool * (float * float)) :=
  fst (Configure 1%N two_wheels_sdf two_wheels
         (fresh (false, (0%float, 0%float)))).

(** What a defined result holds, for the sample runs. *)
Definition get {A} (x : option A) (dflt : A) : A := default dflt x.

End DiffDrive.

(** * The ParticleEmitter system ([ParticleEmitter.cc]) *)

Module ParticleEmitter.

Abbreviation Entity := N.

(** [msgs::ParticleEmitter_EmitterType]. *)
Inductive EmitterType := POINT | BOX | CYLINDER | ELLIPSOID.

Section Code.

(** The values of ignition-math, sdformat and ignition-msgs that
    [Configure] only passes along, the null entity of [Entity.hh], and the
    functions outside this file that it calls: [std::to_string],
    [convert<msgs::Material>] after [sdf::Material::Load], and
    [SystemPaths::FindFile] after [asFullPath]. *)
Context {Pose3d Vector3d Color MaterialElement Material : Type}
  (kNullEntity : Entity)
  (Pose3d_Zero : Pose3d) (Vector3d_One : Vector3d) (Color_White : Color)
  (to_string : Entity -> string)
  (convert : MaterialElement -> Material)
  (FindFile : string -> string -> string).

(** The children of the plugin element that [Configure] reads; [None]
    when the child is absent. *)
Record Sdf := mkSdf {
  sdf_emitter_name : option string;
  sdf_type : option string;
  sdf_pose : option Pose3d;
  sdf_size : option Vector3d;
  sdf_rate : option float;
  sdf_duration : option float;
  sdf_emitting : option bool;
  sdf_particle_size : option Vector3d;
  sdf_lifetime : option float;
  sdf_material : option MaterialElement;
  sdf_min_velocity : option float;
  sdf_max_velocity : option float;
  sdf_color_start : option Color;
  sdf_color_end : option Color;
  sdf_scale_rate : option float;
  sdf_color_range_image : option string;
  sdf_topic : option string
}.

(** [msgs::ParticleEmitter], by the fields that [Configure] sets; the two
    optional fields are [None] while unset. *)
Record Emitter := mkEmitter {
  name : string;
  type : EmitterType;
  pose : Pose3d;
  size : Vector3d;
  rate : float;
  duration : float;
  emitting : bool;
  particle_size : Vector3d;
  lifetime : float;
  material : option Material;
  min_velocity : float;
  max_velocity : float;
  color_start : Color;
  color_end : Color;
  scale_rate : float;
  color_range_image : option string
}.

(** What the system does to the manager, the transport node and the
    console. *)
Inductive call :=
| CreateEntity (ret : Entity)
| SetParent (child parent : Entity)
| CreateName (entity : Entity) (data : string)
| CreateParticleEmitter (entity : Entity) (data : Emitter)
| CreatePose (entity : Entity) (data : Pose3d)
| CreateParticleEmitterCmd (entity : Entity) (data : Emitter)
| Subscribe (topic : string) (ret : bool)
| Err (text : string)
| Dbg (text : string).

(** What [Configure] finds around it: whether the entity is a model, the
    name of that model, its [SourceFilePath] component if it has one, what
    [CreateEntity] returns and what [Subscribe] answers. *)
Record surroundings := mkSurroundings {
  Valid : bool;
  Name : string;
  SourceFilePath : option string;
  created : Entity;
  subscribed : bool
}.

(** How a call of [Configure] ends: it returns, or [std::optional::value]
    throws on an empty optional. *)
Inductive ending := Returned | Thrown.

(** The type named by the [type] child, and the error for a name that is
    not known. *)
Definition emitter_type (t : string) : EmitterType * list call :=
  if String.eqb t "box" then (BOX, [])
  else if String.eqb t "cylinder" then (CYLINDER, [])
  else if String.eqb t "ellipsoid" then (ELLIPSOID, [])
  else if negb (String.eqb t "point")
  then (POINT, [Err ("Unknown emitter type [" +:+ t +:+ "]. Using [point] instead")])
  else (POINT, []).

Definition Configure (_entity : Entity) (_sdf : Sdf) (w : surroundings)
    : ending * list call :=
  if negb (Valid w)
  then (Returned,
        [Err "ParticleEmitter plugin should be attached to a model entity. Failed to initialize."])
  else
    let entity := created w in
    if (entity =? kNullEntity)%N
    then (Returned,
          [CreateEntity entity; Err "Failed to create a particle emitter entity"])
    else
      let name :=
        default ("particle_emitter_entity_" +:+ to_string entity)
                (sdf_emitter_name _sdf) in
      let '(ty, unknown) := emitter_type (default "point" (sdf_type _sdf)) in
      let pose := default Pose3d_Zero (sdf_pose _sdf) in
      match sdf_color_range_image _sdf, SourceFilePath w with
      | Some _, None => (Thrown, CreateEntity entity :: unknown)
      | image, modelPath =>
          let emitter :=
            mkEmitter name ty pose
              (default Vector3d_One (sdf_size _sdf))
              (default 10%float (sdf_rate _sdf))
              (default 0%float (sdf_duration _sdf))
              (default false (sdf_emitting _sdf))
              (default Vector3d_One (sdf_particle_size _sdf))
              (default 5%float (sdf_lifetime _sdf))
              (convert <$> sdf_material _sdf)
              (default 1%float (sdf_min_velocity _sdf))
              (default 1%float (sdf_max_velocity _sdf))
              (default Color_White (sdf_color_start _sdf))
              (default Color_White (sdf_color_end _sdf))
              (default 1%float (sdf_scale_rate _sdf))
              (match image, modelPath with
               | Some i, Some p => Some (FindFile i p)
               | _, _ => None
               end) in
          let kDefaultTopic :=
            "/model/" +:+ Name w +:+ "/particle_emitter/" +:+ name in
          let topic := default kDefaultTopic (sdf_topic _sdf) in
          (Returned,
           CreateEntity entity :: unknown
           ++ [Dbg "Loading particle emitter:";
               SetParent entity _entity;
               CreateName entity ("particle_emitter_" +:+ name);
               CreateParticleEmitter entity emitter;
               CreatePose entity pose;
               Subscribe topic (subscribed w);
               if subscribed w
               then Err ("Subscribed to " +:+ topic)
               else Err ("Error subscribing to topic [" +:+ topic +:+ "]")])
      end.

(** The two members of [ParticleEmitterPrivate] that the callbacks use. *)
Record data := mkData {
  userCmd : Emitter;
  newDataReceived : bool
}.

Definition OnCmd (_msg : Emitter) (d : data) : data * list call :=
  (mkData _msg true, [Err "OnCmd"]).

(** [PreUpdate]; [entity] is what [CreateEntity] returns if it is
    called. *)
Definition PreUpdate (paused : bool) (entity : Entity) (d : data)
    : data * list call :=
  if negb (newDataReceived d) then (d, [])
  else if paused then (d, [])
  else
    let d := mkData (userCmd d) false in
    if (entity =? kNullEntity)%N
    then (d, [CreateEntity entity;
              Err "Failed to create a particle emitter entity command"])
    else (d, [CreateEntity entity;
              CreateParticleEmitterCmd entity (userCmd d);
              Dbg "New ParticleEmitterCmd component created"]).

(** What reaches the system, one at a time: a command message, or an
    update of the simulation. [OnCmd] runs on the thread of the transport
    node; the mutex keeps it apart from the part of [PreUpdate] that reads
    the command. *)
Inductive input :=
| Cmd (_msg : Emitter)
| Update (paused : bool) (entity : Entity).

Definition step (i : input) (d : data) : data * list call :=
  match i with
  | Cmd m => OnCmd m d
  | Update paused entity => PreUpdate paused entity d
  end.

Fixpoint run (inputs : list input) (d : data) : data * list call :=
  match inputs with
  | [] => (d, [])
  | i :: rest =>
      let '(d1, c1) := step i d in
      let '(d2, c2) := run rest d1 in
      (d2, c1 ++ c2)
  end.

Definition is_cmd (i : input) : bool :=
  match i with
  | Cmd _ => true
  | Update _ _ => false
  end.

Definition is_paused_update (i : input) : bool :=
  match i with
  | Update true _ => true
  | _ => false
  end.

(** The command components among some calls: the entity and the
    message of each. *)
Definition commands (l : list call) : list (Entity * Emitter) :=
  flat_map
    (fun c => match c with
              | CreateParticleEmitterCmd e m => [(e, m)]
              | _ => []
              end) l.



End Code.

(** ** Sample inputs, with trivial values for the types passed along *)

Definition smoke (n : string) : @Emitter unit unit unit unit :=
  mkEmitter n POINT tt tt 10%float 0%float true tt 5%float None
            1%float 1%float tt tt 1%float None.

Definition idle : @data unit unit unit unit := mkData (smoke "") false.

Definition plain_sdf : @Sdf unit unit unit unit :=
  mkSdf None None None None None None None None None None None None None None
        None None None.

End ParticleEmitter.
(** * Properties *)

(** ** Sample runs *)

(** No flag, both children exit as soon as they are interrupted; the
    server is the first to exit, by itself and with code 0. *)
Example run_server_exits_first :
  main env_prompt ["ign-gazebo"; "shapes.sdf"] no_flags
  = (Return 0,
     mkState (mkFlags true true true) 100 200 1
       (let f0 := mkFlags false false false in
        let f1 := mkFlags false false true in
        let f2 := mkFlags true false true in
        let f3 := mkFlags true true true in
        [(EvSetVerbosity 1, f0);
         (EvFork Server 100, f0);
         (EvExec Server (Some "ign-gazebo-server")
            [Some "ign-gazebo-server"; Some "shapes.sdf"; None], f0);
         (EvFork Gui 200, f0);
         (EvExec Gui (Some "ign-gazebo-gui")
            [Some "ign-gazebo-gui"; Some "shapes.sdf"; None], f0);
         (EvWait 100 0, f0);
         (EvStore RefServer, f1);
         (EvRaise SIGINT, f1);
         (EvStore RefSig, f2);
         (EvKill 200 SIGINT, f2);
         (EvWaitpid 200 200, f2);
         (EvStore RefGui, f3);
         (EvKill 100 SIGINT, f3)])).
Proof. vm_compute. reflexivity. Qed.

(** The GUI exits first: [main] marks it, raises, and the callback still
    interrupts pid 200 before it turns to the server. *)
Example run_gui_exits_first :
  events (snd (main env_gui_exits ["ign-gazebo"] no_flags))
  = [EvSetVerbosity 1;
     EvFork Server 100;
     EvExec Server (Some "ign-gazebo-server") [Some "ign-gazebo-server"; None];
     EvFork Gui 200;
     EvExec Gui (Some "ign-gazebo-gui") [Some "ign-gazebo-gui"; None];
     EvWait 200 0;
     EvStore RefGui;
     EvRaise SIGINT;
     EvStore RefSig;
     EvKill 200 SIGINT;
     EvKill 100 SIGINT; EvWaitpid 100 100; EvStore RefServer].
Proof. vm_compute. reflexivity. Qed.

(** A termination signal arrives while [wait] blocks: the callback runs
    first, [wait] returns afterwards, and [main] does not raise. *)
Example run_interrupted :
  let r := main env_interrupted ["ign-gazebo"] no_flags in
  fst r = Return (-1) /\
  events (snd r)
  = [EvSetVerbosity 1;
     EvFork Server 100;
     EvExec Server (Some "ign-gazebo-server") [Some "ign-gazebo-server"; None];
     EvFork Gui 200;
     EvExec Gui (Some "ign-gazebo-gui") [Some "ign-gazebo-gui"; None];
     EvStore RefSig;
     EvKill 200 SIGINT; EvWaitpid 200 200; EvStore RefGui;
     EvKill 100 SIGINT; EvWaitpid 100 100; EvStore RefServer;
     EvWait 200 2;
     EvStore RefGui].
Proof. split; vm_compute; reflexivity. Qed.

(** A GUI that never exits is interrupted, polled 5000 times, then
    killed. *)
Example run_stubborn_gui :
  let st := KillProcess env_stubborn 200 "ign-gazebo-gui" 5%float RefGui
              (init_state env_stubborn) in
  (Z.of_nat (length (events st)), head (events st), last (events st),
   Z.of_nat (polls st))
  = (10003, Some (EvKill 200 SIGINT), Some (EvKill 200 SIGKILL), 5000).
Proof. vm_compute. reflexivity. Qed.

(** ** The polling loop *)

Lemma poll_bound_5 : poll_bound 5%float = 5000%nat.
Proof. vm_compute. reflexivity. Qed.

Lemma events_log e st : events (log e st) = events st ++ [e].
Proof. unfold events, log; simpl. now rewrite map_app. Qed.

Lemma poll_loop_dead E pid r n st :
  load r (fl st) = true -> poll_loop E pid r n st = st.
Proof. intros H. destruct n; simpl; [reflexivity | now rewrite H]. Qed.

(** While waitpid does not report the child, each iteration is one waitpid
    and one sleep, and no flag changes. *)
Lemma poll_loop_alive E pid r n : forall st,
  load r (fl st) = false ->
  (forall k, (polls st <= k < polls st + n)%nat -> waitpid_ret E k pid <> pid) ->
  poll_loop E pid r n st =
  mkState (fl st) (serverPid st) (guiPid st) (polls st + n)
    (trace st ++
     flat_map (fun k => [(EvWaitpid pid (waitpid_ret E k pid), fl st);
                         (EvSleep sleepSecs, fl st)])
              (seq (polls st) n)).
Proof.
  induction n as [|n IH]; intros st Hr Hw.
  - simpl. destruct st; simpl. now rewrite Nat.add_0_r, app_nil_r.
  - cbn [poll_loop]. rewrite Hr. unfold waitpid.
    destruct (Z.eqb_spec (waitpid_ret E (polls st) pid) pid) as [Heq|_].
    { exfalso. apply (Hw (polls st)); [lia | exact Heq]. }
    rewrite IH.
    + cbn [log fl serverPid guiPid polls trace seq flat_map].
      f_equal; [lia|]. now rewrite <- !app_assoc.
    + exact Hr.
    + cbn [log polls]. intros k Hk. apply Hw. lia.
Qed.

(** ** [KillProcess] on a child already marked dead *)

(** C2, as the specification states it, fails: [KillProcess] called for a
    child whose flag is already true still sends SIGINT to it. Here the GUI
    (pid 200) is marked dead and the interrupt is the whole trace. *)
Lemma KillProcess_dead_child_gets_SIGINT :
  load RefGui (fl st_gui_dead) = true /\
  events (KillProcess env_prompt 200 "ign-gazebo-gui" 5%float RefGui st_gui_dead)
  = [EvKill 200 SIGINT].
Proof. split; vm_compute; reflexivity. Qed.

(** C2, amended: when the flag is already true, [KillProcess] sends the
    interrupt once and nothing else: no waitpid, no sleep, no SIGKILL, and
    the flags (the child's among them) are as they were. *)
Theorem KillProcess_dead_child E pid name timeout r st :
  load r (fl st) = true ->
  let st' := KillProcess E pid name timeout r st in
  events st' = events st ++ [EvKill pid SIGINT] /\
  fl st' = fl st /\
  load r (fl st') = true /\
  polls st' = polls st.
Proof.
  intros H st'. subst st'. unfold KillProcess.
  rewrite poll_loop_dead by exact H.
  cbn [log fl]. rewrite H. rewrite events_log. cbn [log fl polls]. auto.
Qed.

Lemma KillProcess_dead_child_witness :
  let st' := KillProcess env_prompt 200 "ign-gazebo-gui" 5%float RefGui st_gui_dead in
  events st' = events st_gui_dead ++ [EvKill 200 SIGINT] /\
  fl st' = fl st_gui_dead /\
  load RefGui (fl st') = true /\
  polls st' = polls st_gui_dead.
Proof.
  apply (KillProcess_dead_child env_prompt 200 "ign-gazebo-gui" 5%float
           RefGui st_gui_dead).
  reflexivity.
Defined.

(** ** [KillProcess] on a child that does not exit *)

Lemma window_events E pid (f : flags) l :
  map fst (flat_map (fun k => [(EvWaitpid pid (waitpid_ret E k pid), f);
                               (EvSleep sleepSecs, f)]) l)
  = flat_map (fun k => [EvWaitpid pid (waitpid_ret E k pid); EvSleep sleepSecs]) l.
Proof. induction l as [|k l IH]; simpl; [reflexivity | now rewrite IH]. Qed.

(** C3, as the specification states it, fails in its last part: after the
    escalation the flag of the child is still false. The GUI (pid 200)
    never answers a waitpid here. *)
Lemma KillProcess_escalation_leaves_flag_false :
  (forall k, waitpid_ret env_stubborn k 200 <> 200) /\
  load RefGui (fl (init_state env_stubborn)) = false /\
  load RefGui
    (fl (KillProcess env_stubborn 200 "ign-gazebo-gui" 5%float RefGui
           (init_state env_stubborn))) = false.
Proof.
  split; [intros k; discriminate|].
  split; vm_compute; reflexivity.
Qed.

(** C3, amended: for a child whose flag is false and which no waitpid of
    the window reports, [KillProcess] sends SIGINT, goes through every one
    of the [poll_bound _timeout] rounds of waitpid and sleep, then sends
    SIGKILL once, as its last call; it does not wait again and leaves the
    flags, the child's among them, unchanged (false). *)
Theorem KillProcess_escalates E pid name timeout r st :
  load r (fl st) = false ->
  (forall k, (polls st <= k < polls st + poll_bound timeout)%nat ->
             waitpid_ret E k pid <> pid) ->
  let st' := KillProcess E pid name timeout r st in
  events st' =
    events st ++ [EvKill pid SIGINT]
      ++ window E pid (polls st) (poll_bound timeout)
      ++ [EvErr "Escalating to SIGKILL on" name; EvKill pid SIGKILL] /\
  fl st' = fl st /\
  load r (fl st') = false.
Proof.
  intros Hr Hw st'. subst st'. unfold KillProcess.
  rewrite poll_loop_alive; [| exact Hr | exact Hw].
  cbn [log fl serverPid guiPid polls trace]. rewrite Hr.
  unfold events, window. cbn [log fl serverPid guiPid polls trace].
  repeat split; try assumption.
  rewrite !map_app, window_events. cbn [map fst].
  now rewrite <- !app_assoc.
Qed.

Lemma KillProcess_escalates_witness :
  let st := init_state env_stubborn in
  let st' := KillProcess env_stubborn 200 "ign-gazebo-gui" 5%float RefGui st in
  events st' =
    events st ++ [EvKill 200 SIGINT]
      ++ window env_stubborn 200 (polls st) (poll_bound 5%float)
      ++ [EvErr "Escalating to SIGKILL on" "ign-gazebo-gui"; EvKill 200 SIGKILL] /\
  fl st' = fl st /\
  load RefGui (fl st') = false.
Proof.
  apply (KillProcess_escalates env_stubborn 200 "ign-gazebo-gui" 5%float
           RefGui (init_state env_stubborn)).
  - reflexivity.
  - intros k _. simpl. discriminate.
Defined.

(** ** Flags only ever go up *)

Lemma flags_le_refl f : flags_le f f.
Proof. intros r H; exact H. Qed.

Lemma flags_le_trans f g h : flags_le f g -> flags_le g h -> flags_le f h.
Proof. intros H1 H2 r H. apply H2, H1, H. Qed.

Lemma load_store_true r f : load r (store_true r f) = true.
Proof. destruct r; reflexivity. Qed.

Lemma flags_le_store r f : flags_le f (store_true r f).
Proof. intros r' H. destruct r, r'; simpl in *; auto. Qed.

Create HintDb flags.
#[local] Hint Resolve flags_le_refl flags_le_store : flags.

Lemma step_flags st st' : step st st' -> flags_le (fl st) (fl st').
Proof. destruct 1; simpl; auto with flags. Qed.

Lemma step_pids st st' :
  step st st' -> serverPid st' = serverPid st /\ guiPid st' = guiPid st.
Proof. destruct 1; simpl; auto. Qed.

Lemma step_trace st st' :
  step st st' ->
  exists x, trace st' = trace st ++ [x] /\ is_launch (fst x) = false
            /\ snd x = fl st'.
Proof.
  destruct 1 as [e st He | r st | E pid st]; simpl; eexists; split;
    try reflexivity; simpl; auto.
Qed.

Lemma StronglySorted_snoc {A} (R : A -> A -> Prop) l a :
  StronglySorted R l -> Forall (fun x => R x a) l -> StronglySorted R (l ++ [a]).
Proof.
  induction 1 as [|b l Hl IH Hb]; intros Ha; simpl.
  - repeat constructor.
  - inversion Ha; subst. constructor; [auto|].
    apply Forall_app; split; [assumption | constructor; auto].
Qed.

Lemma step_consistent st st' : step st st' -> consistent st -> consistent st'.
Proof.
  intros Hs [Hsorted Hbelow Hseen Hlaunch].
  pose proof (step_flags _ _ Hs) as Hle.
  destruct (step_trace _ _ Hs) as ([e f] & Ht & He & Hf); simpl in He, Hf; subst f.
  constructor; unfold snapshots in *; rewrite Ht, ?map_app; simpl.
  - apply StronglySorted_snoc; [assumption|].
    eapply Forall_impl; [exact Hbelow|]. intros g Hg; simpl in Hg.
    eapply flags_le_trans; eauto.
  - apply Forall_app; split.
    + eapply Forall_impl; [exact Hbelow|]. intros g Hg; simpl in Hg.
      eapply flags_le_trans; eauto.
    + constructor; auto with flags.
  - intros r Hr. apply Exists_app. right. constructor. exact Hr.
  - apply Forall_app; split; [assumption|].
    constructor; [|constructor]. simpl. congruence.
Qed.

Lemma steps_consistent st st' : rtc step st st' -> consistent st -> consistent st'.
Proof. induction 1; eauto using step_consistent. Qed.

Lemma steps_flags st st' : rtc step st st' -> flags_le (fl st) (fl st').
Proof.
  induction 1; [apply flags_le_refl|].
  eapply flags_le_trans; [eapply step_flags|]; eauto.
Qed.

Lemma steps_pids st st' :
  rtc step st st' -> serverPid st' = serverPid st /\ guiPid st' = guiPid st.
Proof.
  induction 1 as [|st1 st2 st3 H _ [IH1 IH2]]; [auto|].
  destruct (step_pids _ _ H) as [E1 E2]. split; congruence.
Qed.

(** Steps only add to the trace, never an entry of a launch, and every
    entry they add holds the flags that were set before. *)
Lemma steps_trace st st' :
  rtc step st st' ->
  exists added, trace st' = trace st ++ added /\
                Forall (fun x => is_launch (fst x) = false) added /\
                Forall (fun x => flags_le (fl st) (snd x)) added.
Proof.
  induction 1 as [st|st1 st2 st3 H _ (added & Ht & Ha & Hf)].
  - exists []. rewrite app_nil_r. auto.
  - destruct (step_trace _ _ H) as (x & Hx & Hl & Hs).
    pose proof (step_flags _ _ H) as Hle.
    exists (x :: added). rewrite Ht, Hx, <- app_assoc. split; [reflexivity|].
    split; constructor; try assumption.
    + rewrite Hs. exact Hle.
    + eapply Forall_impl; [exact Hf|]. intros y Hy; simpl in Hy.
      eapply flags_le_trans; eassumption.
Qed.

Lemma steps_events st st' :
  rtc step st st' -> exists l, events st' = events st ++ l.
Proof.
  intros H. destruct (steps_trace _ _ H) as (added & Ht & _).
  exists (map fst added). unfold events. now rewrite Ht, map_app.
Qed.

(** ** The supervisor moves by steps *)

Lemma poll_loop_steps E pid r n : forall st, rtc step st (poll_loop E pid r n st).
Proof.
  induction n as [|n IH]; intros st; cbn [poll_loop]; [constructor|].
  destruct (load r (fl st)); [constructor|].
  unfold waitpid.
  set (st1 := log _ _).
  assert (H1 : step st st1) by (apply (step_waitpid E pid st)).
  destruct (_ =? _).
  - eapply rtc_l; [exact H1|]. apply rtc_once, step_store.
  - eapply rtc_l; [exact H1|]. eapply rtc_l; [|apply IH].
    apply step_log. reflexivity.
Qed.

Lemma KillProcess_steps E pid name t r st :
  rtc step st (KillProcess E pid name t r st).
Proof.
  unfold KillProcess.
  set (st1 := log (EvKill pid SIGINT) st).
  assert (H1 : rtc step st st1) by (apply rtc_once, step_log; reflexivity).
  pose proof (poll_loop_steps E pid r (poll_bound t) st1) as H2.
  destruct (load r _).
  - etrans; eauto.
  - etrans; [exact H1|]. etrans; [exact H2|].
    eapply rtc_r; [|apply step_log; reflexivity].
    apply rtc_once, step_log; reflexivity.
Qed.

Lemma callback_steps E c st : rtc step st (callback E c st).
Proof.
  unfold callback.
  set (st1 := store RefSig st).
  assert (H1 : rtc step st st1) by apply rtc_once, step_store.
  destruct (negb (FLAGS_s c)); destruct (negb (FLAGS_g c)).
  - etrans; [exact H1|]. etrans; apply KillProcess_steps.
  - etrans; [exact H1|]. apply KillProcess_steps.
  - etrans; [exact H1|]. apply KillProcess_steps.
  - exact H1.
Qed.

Lemma deliver_steps E c n : forall st, rtc step st (deliver E c n st).
Proof.
  unfold deliver. induction n as [|n IH]; intros st; simpl; [reflexivity|].
  etrans; [apply IH | apply callback_steps].
Qed.

(** Goals [rtc step st (f ... st)] for the statements of [main]: peel the
    outermost statement and go on with what runs before it. *)
Ltac peel_steps :=
  repeat match goal with
  | |- rtc step _ (deliver _ _ _ _) => etrans; [|apply deliver_steps]
  | |- rtc step _ (if ?b then _ else _) => destruct b
  | |- rtc step _ (callback _ _ _) => etrans; [|apply callback_steps]
  | |- rtc step _ (store _ _) => etrans; [|apply rtc_once, step_store]
  | |- rtc step _ (log _ _) =>
      etrans; [|apply rtc_once, step_log; reflexivity]
  end; try reflexivity.

Lemma reap_steps E c st : rtc step st (snd (reap E c st)).
Proof.
  unfold reap. destruct (wait_ret E) as [deadChild status]. cbn [snd].
  peel_steps.
Qed.

Lemma supervise_steps E c st : rtc step st (snd (supervise E c st)).
Proof.
  unfold supervise.
  pose proof (reap_steps E c st) as H.
  destruct (reap E c st) as [rv st1]. cbn [snd] in *.
  etrans; [exact H|]. peel_steps.
Qed.

(** ** The launch *)

Lemma main_launches E argv c :
  launches c = true ->
  main E argv c =
  (Return (fst (supervise E c (launched E argv c))),
   snd (supervise E c (launched E argv c))).
Proof.
  unfold launches, main, launched. intros H.
  apply andb_prop in H as [H Hv]. apply andb_prop in H as [Hp Hh].
  rewrite Hp. cbn [negb].
  apply negb_true_iff in Hh, Hv. rewrite Hh, Hv.
  now destruct (supervise _ _ _).
Qed.

Lemma main_stops E argv c :
  launches c = false ->
  snd (main E argv c) = init_state E \/
  snd (main E argv c) = log EvHelp (init_state E) \/
  snd (main E argv c) = log EvVersion (init_state E).
Proof.
  unfold launches, main. intros H.
  destruct (ParseCommandLineNonHelpFlags c); cbn [negb]; [|auto].
  destruct (FLAGS_h c || FLAGS_help c); [auto|].
  destruct (FLAGS_version c); [auto|discriminate].
Qed.

Lemma pristine_log e st : pristine st -> pristine (log e st).
Proof.
  intros [Hf Ht]. split; [exact Hf|]. cbn [log trace].
  apply Forall_app; split; [exact Ht|]. repeat constructor. exact Hf.
Qed.

Lemma pristine_set_pid r p st : pristine st -> pristine (set_pid r p st).
Proof. destruct r; intros [Hf Ht]; split; assumption. Qed.

Lemma pristine_spawn E r a st : pristine st -> pristine (spawn E r a st).
Proof.
  intros H. unfold spawn.
  destruct (fork_ret E r); auto using pristine_set_pid, pristine_log.
Qed.

Lemma pristine_launched E argv c : pristine (launched E argv c).
Proof.
  unfold launched.
  assert (H0 : pristine (log (EvSetVerbosity (verbosity c)) (init_state E)))
    by (apply pristine_log; split; [reflexivity | constructor]).
  destruct (negb (FLAGS_g c)), (negb (FLAGS_s c));
    auto using pristine_spawn.
Qed.

Lemma pristine_consistent st : pristine st -> consistent st.
Proof.
  intros [Hf Ht].
  assert (Hs : Forall (fun f => f = mkFlags false false false) (snapshots st)).
  { unfold snapshots. apply Forall_map. exact Ht. }
  constructor.
  - induction Hs as [|f l Hfl Hl IH]; constructor; [exact IH|].
    eapply Forall_impl; [exact Hl|]. intros g ->. rewrite Hfl.
    apply flags_le_refl.
  - eapply Forall_impl; [exact Hs|]. intros g ->. rewrite Hf.
    apply flags_le_refl.
  - intros r. rewrite Hf. destruct r; discriminate.
  - eapply Forall_impl; [exact Ht|]. intros [e f]; simpl. now intros ->.
Qed.

Lemma events_set_pid r p st : events (set_pid r p st) = events st.
Proof. destruct r; reflexivity. Qed.

Lemma events_spawn E r argv st :
  events (spawn E r (child_argv r argv) st) = events st ++ spawn_events E r argv.
Proof.
  unfold spawn, spawn_events. destruct (fork_ret E r).
  - rewrite events_set_pid, !events_log, <- app_assoc. reflexivity.
  - rewrite events_set_pid, events_log. reflexivity.
Qed.

Lemma launched_events E argv c :
  events (launched E argv c) =
  EvSetVerbosity (verbosity c)
    :: (if planned c Server then spawn_events E Server argv else [])
    ++ (if planned c Gui then spawn_events E Gui argv else []).
Proof.
  unfold launched, planned.
  destruct (negb (FLAGS_g c)), (negb (FLAGS_s c));
    rewrite ?events_spawn, ?events_log, ?app_nil_r; simpl;
    rewrite <- ?app_assoc; reflexivity.
Qed.

Lemma pid_of_spawn E r a st : pid_of r (spawn E r a st) = child_pid E r.
Proof. unfold spawn, child_pid. destruct (fork_ret E r), r; reflexivity. Qed.

Lemma pid_of_spawn_other E r r' a st :
  r <> r' -> pid_of r (spawn E r' a st) = pid_of r st.
Proof.
  unfold spawn. intros H.
  destruct (fork_ret E r'), r, r'; try reflexivity; congruence.
Qed.

Lemma launched_pid E argv c r :
  planned c r = true -> pid_of r (launched E argv c) = child_pid E r.
Proof.
  unfold launched, planned.
  destruct r; intros ->.
  - destruct (negb (FLAGS_s c)).
    + rewrite pid_of_spawn_other by discriminate. apply pid_of_spawn.
    + apply pid_of_spawn.
  - apply pid_of_spawn.
Qed.

(** After the launch the trace grows by entries that are not launches. *)
Lemma main_trace E argv c :
  launches c = true ->
  exists added,
    trace (snd (main E argv c)) = trace (launched E argv c) ++ added /\
    Forall (fun x => is_launch (fst x) = false) added.
Proof.
  intros H. rewrite (main_launches _ _ _ H). cbn [snd].
  destruct (steps_trace _ _ (supervise_steps E c (launched E argv c)))
    as (added & Ht & Ha & _).
  eauto.
Qed.

Lemma main_consistent E argv c : consistent (snd (main E argv c)).
Proof.
  destruct (launches c) eqn:H.
  - rewrite (main_launches _ _ _ H). cbn [snd].
    eapply steps_consistent; [apply supervise_steps|].
    apply pristine_consistent, pristine_launched.
  - apply pristine_consistent.
    assert (H0 : pristine (init_state E)) by (split; [reflexivity|constructor]).
    destruct (main_stops E argv c H) as [-> | [-> | ->]];
      auto using pristine_log.
Qed.

(** ** The children's argument vectors *)

Lemma copy_loop_length argv n : forall i a, length (copy_loop argv i n a) = length a.
Proof.
  induction n as [|n IH]; intros i a; cbn [copy_loop]; [reflexivity|].
  now rewrite IH, length_insert.
Qed.

(** The loop assigns exactly the cells [i], ..., [i + n - 1]. *)
Lemma copy_loop_lookup argv n : forall i a j,
  copy_loop argv i n a !! j =
  if decide ((i <= j < i + n)%nat /\ (j < length a)%nat)
  then Some (argv !! j) else a !! j.
Proof.
  induction n as [|n IH]; intros i a j; cbn [copy_loop].
  - case_decide; [lia | reflexivity].
  - rewrite IH, length_insert, list_lookup_insert.
    repeat case_decide; try reflexivity; try lia.
    destruct_and!; subst. reflexivity.
Qed.

(** Whatever the fresh array holds, the assignments leave the received
    vector with cell 0 replaced and a null pointer after it. *)
Lemma fill_argv_spec name (argv : list string) (a : cvec) :
  length a = S (length argv) ->
  fill_argv name argv a = <[0%nat := Some name]> (Some <$> argv) ++ [None].
Proof.
  intros Hlen. unfold fill_argv. apply list_eq. intros j.
  rewrite list_lookup_insert, copy_loop_length, length_insert,
    copy_loop_lookup, length_insert, list_lookup_insert.
  rewrite lookup_app, length_insert, length_fmap, list_lookup_insert,
    length_fmap, list_lookup_fmap.
  destruct (decide (j < length argv)%nat) as [Hj|Hj].
  - destruct (lookup_lt_is_Some_2 argv j Hj) as [x Hx]. rewrite Hx. simpl.
    repeat case_decide; try reflexivity; try lia.
  - rewrite (lookup_ge_None_2 argv j) by lia. simpl.
    destruct (decide (j = length argv)) as [->|Hne].
    + rewrite Nat.sub_diag. simpl.
      repeat case_decide; try reflexivity; try lia.
    + rewrite (lookup_ge_None_2 a j) by lia.
      replace (j - length argv)%nat with (S (j - length argv - 1)) by lia.
      simpl. repeat case_decide; try reflexivity; try lia.
Qed.

Lemma child_argv_spec r (argv : list string) :
  child_argv r argv = <[0%nat := Some (exe_name r)]> (Some <$> argv) ++ [None].
Proof. apply fill_argv_spec. now rewrite length_replicate. Qed.

Lemma In_spawn_events E r argv r' file args :
  In (EvExec r' file args) (spawn_events E r argv) ->
  r' = r /\ args = child_argv r argv /\ file = default None (args !! 0%nat).
Proof.
  unfold spawn_events. destruct (fork_ret E r); simpl; intros H.
  - destruct H as [H|[H|[]]]; [discriminate|]. injection H as <- <- <-. auto.
  - destruct H as [H|[]]. discriminate.
Qed.

Lemma main_exec E argv c r file args :
  In (EvExec r file args) (events (snd (main E argv c))) ->
  args = child_argv r argv /\ file = default None (args !! 0%nat).
Proof.
  destruct (launches c) eqn:Hl.
  - destruct (main_trace E argv c Hl) as (added & Ht & Ha).
    unfold events at 1. rewrite Ht, map_app. intros H.
    apply in_app_or in H as [H|H].
    + change (In (EvExec r file args) (events (launched E argv c))) in H.
      rewrite launched_events in H. destruct H as [H|H]; [discriminate|].
      apply in_app_or in H as [H|H].
      * destruct (planned c Server); [|destruct H].
        apply In_spawn_events in H as (-> & ? & ?). auto.
      * destruct (planned c Gui); [|destruct H].
        apply In_spawn_events in H as (-> & ? & ?). auto.
    + apply in_map_iff in H as ([e f] & He & Hin). simpl in He. subst e.
      rewrite Forall_forall in Ha. apply list_elem_of_In in Hin.
      specialize (Ha _ Hin). discriminate.
  - intros H.
    destruct (main_stops E argv c Hl) as [Hs | [Hs | Hs]]; rewrite Hs in H;
      simpl in H; intuition discriminate.
Qed.

(** C9: whatever vector [main] receives, the server is executed with that
    vector in which only cell 0 is replaced, by "ign-gazebo-server", and a
    null pointer is appended, and the GUI with the same vector in which cell
    0 is "ign-gazebo-gui"; the file executed is cell 0 of the result, that
    name as soon as the received vector is not empty; every planned child
    whose fork succeeds is executed so; the two vectors are equal at every
    index but 0. *)
Theorem children_get_the_received_arguments E (argv : list string) c :
  (forall file args,
     In (EvExec Server file args) (events (snd (main E argv c))) ->
     args = <[0%nat := Some "ign-gazebo-server"]> (Some <$> argv) ++ [None] /\
     file = default None (args !! 0%nat) /\
     (argv <> [] ->
      file = Some "ign-gazebo-server" /\
      args = Some "ign-gazebo-server" :: (Some <$> tail argv) ++ [None])) /\
  (forall file args,
     In (EvExec Gui file args) (events (snd (main E argv c))) ->
     args = <[0%nat := Some "ign-gazebo-gui"]> (Some <$> argv) ++ [None] /\
     file = default None (args !! 0%nat) /\
     (argv <> [] ->
      file = Some "ign-gazebo-gui" /\
      args = Some "ign-gazebo-gui" :: (Some <$> tail argv) ++ [None])) /\
  (forall r p name,
     launches c = true -> planned c r = true -> fork_ret E r = Some p ->
     name = match r with
            | Server => "ign-gazebo-server"
            | Gui => "ign-gazebo-gui"
            end ->
     let args := <[0%nat := Some name]> (Some <$> argv) ++ [None] in
     In (EvExec r (default None (args !! 0%nat)) args)
        (events (snd (main E argv c)))) /\
  child_argv Server argv
    = <[0%nat := Some "ign-gazebo-server"]> (Some <$> argv) ++ [None] /\
  child_argv Gui argv
    = <[0%nat := Some "ign-gazebo-gui"]> (Some <$> argv) ++ [None] /\
  (forall i, i <> 0%nat ->
     child_argv Server argv !! i = child_argv Gui argv !! i).
Proof.
  assert (Hexec : forall r file args,
            In (EvExec r file args) (events (snd (main E argv c))) ->
            args = <[0%nat := Some (exe_name r)]> (Some <$> argv) ++ [None] /\
            file = default None (args !! 0%nat) /\
            (argv <> [] ->
             file = Some (exe_name r) /\
             args = Some (exe_name r) :: (Some <$> tail argv) ++ [None])).
  { intros r file args H. apply main_exec in H as [Ha Hf].
    rewrite child_argv_spec in Ha. split; [exact Ha|]. split; [exact Hf|].
    intros Hne. destruct argv as [|x argv']; [congruence|].
    subst args. simpl in *. auto. }
  split_and!.
  - intros file args H. exact (Hexec Server file args H).
  - intros file args H. exact (Hexec Gui file args H).
  - intros r p name Hl Hp Hf -> args. subst args.
    change (match r with
            | Server => "ign-gazebo-server"
            | Gui => "ign-gazebo-gui"
            end) with (exe_name r).
    rewrite <- child_argv_spec.
    destruct (main_trace E argv c Hl) as (added & Ht & _).
    unfold events. rewrite Ht, map_app. apply in_or_app. left.
    change (In (EvExec r (default None (child_argv r argv !! 0%nat))
                  (child_argv r argv)) (events (launched E argv c))).
    rewrite launched_events. right. apply in_or_app.
    destruct r; [left | right]; rewrite Hp; unfold spawn_events;
      rewrite Hf; simpl; auto.
  - exact (child_argv_spec Server argv).
  - exact (child_argv_spec Gui argv).
  - intros i Hi. rewrite !child_argv_spec, !lookup_app, !length_insert.
    rewrite !list_lookup_insert_ne by auto. reflexivity.
Qed.

(** ** The launch plan *)

Lemma forked_app l1 l2 : forked (l1 ++ l2) = forked l1 ++ forked l2.
Proof. unfold forked. apply flat_map_app. Qed.

Lemma forked_no_launch (added : list (event * flags)) :
  Forall (fun x => is_launch (fst x) = false) added ->
  forked (map fst added) = [].
Proof.
  induction 1 as [|[e f] l He _ IH]; [reflexivity|].
  simpl in *. rewrite IH. now destruct e.
Qed.

Lemma forked_spawn_events E r argv : forked (spawn_events E r argv) = [r].
Proof. unfold spawn_events. now destruct (fork_ret E r). Qed.

(** [fork] is called for the server unless [-g] is set and for the GUI
    unless [-s] is set, and nowhere else. *)
Lemma main_forked E argv c :
  forked (events (snd (main E argv c))) =
  if launches c
  then (if planned c Server then [Server] else [])
       ++ (if planned c Gui then [Gui] else [])
  else [].
Proof.
  destruct (launches c) eqn:Hl.
  - destruct (main_trace E argv c Hl) as (added & Ht & Ha).
    unfold events at 1. rewrite Ht, map_app, forked_app, (forked_no_launch added Ha).
    change (map fst (trace (launched E argv c))) with (events (launched E argv c)).
    rewrite launched_events, app_nil_r.
    change (EvSetVerbosity (verbosity c) :: ?l) with ([EvSetVerbosity (verbosity c)] ++ l).
    rewrite !forked_app.
    destruct (planned c Server), (planned c Gui);
      rewrite ?forked_spawn_events; reflexivity.
  - destruct (main_stops E argv c Hl) as [Hs | [Hs | Hs]]; rewrite Hs; reflexivity.
Qed.

(** C1 on the code: a run that launches forks the server and the GUI
    with neither flag, the server alone with [-s], the GUI alone with
    [-g], and nothing at all with both [-s] and [-g], where the claim (and
    the help text of [-s]) promise the server. *)
Theorem launch_plan_of_the_code E argv c :
  launches c = true ->
  forked (events (snd (main E argv c))) =
  match FLAGS_s c, FLAGS_g c with
  | false, false => [Server; Gui]
  | true, false => [Server]
  | false, true => [Gui]
  | true, true => []
  end.
Proof.
  intros Hl. rewrite main_forked, Hl. unfold planned.
  destruct (FLAGS_s c), (FLAGS_g c); reflexivity.
Qed.

Lemma launch_plan_of_the_code_witness :
  forked (events (snd (main env_prompt ["ign-gazebo"; "-s"; "-g"] s_and_g))) = [].
Proof.
  apply (launch_plan_of_the_code env_prompt ["ign-gazebo"; "-s"; "-g"] s_and_g).
  reflexivity.
Defined.

(** ** The exit code *)

Lemma exit_status_decoded n :
  0 <= n < 256 ->
  WIFEXITED (W_EXITCODE n 0) = true /\ WEXITSTATUS (W_EXITCODE n 0) = n.
Proof.
  intros Hn.
  assert (H : forallb (fun n => WIFEXITED (W_EXITCODE n 0)
                                && (WEXITSTATUS (W_EXITCODE n 0) =? n))
                      (map Z.of_nat (seq 0 256)) = true)
    by (vm_compute; reflexivity).
  rewrite forallb_forall in H.
  specialize (H n). rewrite andb_true_iff, Z.eqb_eq in H. apply H.
  apply in_map_iff. exists (Z.to_nat n). split; [lia|].
  apply in_seq. lia.
Qed.

Lemma signal_status_decoded sig core :
  1 <= sig < 128 -> core = 0 \/ core = 128 ->
  WIFEXITED (W_EXITCODE 0 (Z.lor sig core)) = false.
Proof.
  intros Hs Hc.
  assert (H : forallb (fun s => negb (WIFEXITED (W_EXITCODE 0 (Z.lor s 0)))
                                && negb (WIFEXITED (W_EXITCODE 0 (Z.lor s 128))))
                      (map Z.of_nat (seq 1 127)) = true)
    by (vm_compute; reflexivity).
  rewrite forallb_forall in H.
  specialize (H sig). rewrite andb_true_iff, !negb_true_iff in H.
  destruct H as [H0 H128].
  { apply in_map_iff. exists (Z.to_nat sig). split; [lia|].
    apply in_seq. lia. }
  destruct Hc as [-> | ->]; assumption.
Qed.

Lemma first_reaped_app l1 l2 :
  first_reaped (l1 ++ l2) =
  match first_reaped l1 with
  | Some p => Some p
  | None => first_reaped l2
  end.
Proof.
  induction l1 as [|e l1 IH]; [reflexivity|]. simpl.
  destruct (reaped e); [reflexivity | exact IH].
Qed.

(** C5, as the specification states it, fails: a termination signal
    arrives first, the callback reaps the GUI (pid 200), which exited with
    code 0, and throws its status away; [wait] then returns the server,
    ended by SIGKILL, and [main] returns -1. *)
Lemma first_child_reaped_does_not_decide :
  launches no_flags = true /\
  wait_stores words_signal_first env_signal_first /\
  first_reaped (events (snd (main env_signal_first ["ign-gazebo"] no_flags)))
  = Some 200 /\
  WIFEXITED (words_signal_first 200) = true /\
  WEXITSTATUS (words_signal_first 200) = 0 /\
  fst (main env_signal_first ["ign-gazebo"] no_flags) = Return (-1).
Proof.
  split; [reflexivity|]. split; [intros _; reflexivity|].
  split; [vm_compute; reflexivity|].
  split; [reflexivity|]. split; [reflexivity|].
  vm_compute. reflexivity.
Qed.

(** C5, amended: a run that launches returns 0 exactly when the status
    word that [wait] stored says that the child exited, with code 0, and -1
    otherwise; a child that exits with code [n] gives 0 only for [n = 0],
    and a child ended by a signal gives -1. When [wait] returns a child,
    the word is that child's, and the child is the first child reaped if
    the callback has reaped none before, as when no termination signal
    arrives while [wait] blocks. A child that the callback reaps before
    stays the first child reaped; its status is not read. *)
Theorem main_exit_code E argv c :
  launches c = true ->
  let dead := fst (wait_ret E) in
  let s := snd (wait_ret E) in
  exists rv,
    fst (main E argv c) = Return rv /\
    (rv = 0 <-> WIFEXITED s = true /\ WEXITSTATUS s = 0) /\
    (rv <> 0 -> rv = -1) /\
    (forall n, 0 <= n < 256 -> s = W_EXITCODE n 0 -> (rv = 0 <-> n = 0)) /\
    (forall sig core, 1 <= sig < 128 -> core = 0 \/ core = 128 ->
       s = W_EXITCODE 0 (Z.lor sig core) -> rv = -1) /\
    (forall word,
       wait_stores word E -> 0 < dead ->
       (rv = 0 <-> WIFEXITED (word dead) = true /\ WEXITSTATUS (word dead) = 0) /\
       (first_reaped (events (before_wait E argv c)) = None ->
        first_reaped (events (snd (main E argv c))) = Some dead)) /\
    (async E 0 = 0%nat ->
     first_reaped (events (before_wait E argv c)) = None) /\
    (forall p,
       first_reaped (events (before_wait E argv c)) = Some p ->
       first_reaped (events (snd (main E argv c))) = Some p).
Proof.
  intros Hl dead s.
  assert (Hev : exists l,
            events (snd (main E argv c))
            = events (before_wait E argv c) ++ [EvWait dead s] ++ l).
  { rewrite (main_launches _ _ _ Hl). cbn [snd].
    pose proof (supervise_steps E c (launched E argv c)) as Hsup.
    unfold supervise in *.
    assert (Hr : exists st2,
              events st2 = events (before_wait E argv c) ++ [EvWait dead s] /\
              rtc step st2 (snd (reap E c (launched E argv c)))).
    { unfold reap, before_wait. subst dead s.
      destruct (wait_ret E) as [d w]. cbn [fst snd].
      exists (log (EvWait d w) (deliver E c (async E 0) (launched E argv c))).
      split; [apply events_log|].
      set (st2 := log (EvWait d w) _).
      etrans; [|apply deliver_steps].
      destruct (_ =? _); [|destruct (_ =? _)];
        try (etrans; [|apply rtc_once, step_store]); apply deliver_steps. }
    destruct Hr as (st2 & H2 & Hr).
    destruct (reap E c (launched E argv c)) as [rv0 st3]. cbn [snd] in *.
    assert (H3 : rtc step st3
              (let st := deliver E c (async E 3) st3 in
               let st :=
                 if negb (sigKilled (fl st3))
                 then callback E c (log (EvRaise SIGINT) st) else st in
               deliver E c (async E 4) st)).
    { cbn zeta. etrans; [|apply deliver_steps].
      destruct (negb _).
      - etrans; [|apply callback_steps].
        etrans; [|apply rtc_once, step_log; reflexivity].
        apply deliver_steps.
      - apply deliver_steps. }
    assert (H23 : rtc step st2 _) by (etrans; [exact Hr | exact H3]).
    destruct (steps_events _ _ H23) as (l & Hl').
    exists l. cbn zeta in Hl'. cbn [snd]. rewrite Hl', H2, <- app_assoc.
    reflexivity. }
  rewrite (main_launches _ _ _ Hl) in *. cbn [fst snd] in *.
  unfold supervise, reap in *. subst dead s.
  destruct (wait_ret E) as [dead s] eqn:Hw. cbn [fst snd] in *.
  eexists. split; [reflexivity|].
  assert (Hiff : (if negb (WIFEXITED s) || negb (WEXITSTATUS s =? 0)
                  then -1 else 0) = 0
                 <-> WIFEXITED s = true /\ WEXITSTATUS s = 0).
  { destruct (WIFEXITED s), (Z.eqb_spec (WEXITSTATUS s) 0); simpl;
      intuition (try discriminate; try lia). }
  split; [exact Hiff|]. split_and!.
  - destruct (negb _ || negb _); lia.
  - intros n Hn ->. rewrite Hiff.
    destruct (exit_status_decoded n Hn) as [-> ->]. intuition.
  - intros sig core Hs Hc ->. rewrite (signal_status_decoded sig core Hs Hc).
    reflexivity.
  - intros word Hword Hdead. split.
    + unfold wait_stores in Hword. rewrite Hw in Hword. cbn [fst snd] in Hword.
      rewrite <- (Hword Hdead). exact Hiff.
    + intros Hnone. destruct Hev as (l & ->). rewrite first_reaped_app, Hnone.
      cbn [app first_reaped reaped].
      destruct (Z.ltb_spec 0 dead); [reflexivity | lia].
  - intros Ha. unfold before_wait. rewrite Ha.
    change (deliver E c 0 (launched E argv c)) with (launched E argv c).
    rewrite launched_events. cbn [first_reaped reaped].
    rewrite first_reaped_app.
    assert (Hs : forall r, first_reaped (spawn_events E r argv) = None)
      by (intros r; unfold spawn_events; now destruct (fork_ret E r)).
    destruct (planned c Server), (planned c Gui); rewrite ?Hs; reflexivity.
  - intros p Hp. destruct Hev as (l & ->). now rewrite first_reaped_app, Hp.
Qed.

Lemma main_exit_code_witness :
  first_reaped (events (snd (main env_prompt ["ign-gazebo"] no_flags)))
  = Some 100 /\
  fst (main env_prompt ["ign-gazebo"] no_flags) = Return 0.
Proof.
  destruct (main_exit_code env_prompt ["ign-gazebo"] no_flags eq_refl)
    as (rv & Hrv & _ & _ & _ & _ & Hfirst & Hnone & _).
  destruct (Hfirst (fun _ => 0) (fun _ => eq_refl) eq_refl) as [H1 H2].
  split; [exact (H2 (Hnone eq_refl))|].
  rewrite Hrv. f_equal. apply H1. split; reflexivity.
Defined.

(** ** Verbosity, help and version *)

Lemma VerbosityValidator_range x : VerbosityValidator x = true <-> 0 <= x <= 4.
Proof. unfold VerbosityValidator. rewrite andb_true_iff, !Z.leb_le. tauto. Qed.

Lemma parse_accepts c :
  ParseCommandLineNonHelpFlags c = true <->
  (forall x, FLAGS_verbose c = Some x \/ FLAGS_v c = Some x -> 0 <= x <= 4).
Proof.
  unfold ParseCommandLineNonHelpFlags, validated. rewrite andb_true_iff. split.
  - intros [H1 H2] x [Hx|Hx]; rewrite Hx in *;
      now apply VerbosityValidator_range.
  - intros H. split.
    + destruct (FLAGS_verbose c) as [x|]; [|reflexivity].
      apply VerbosityValidator_range, H. auto.
    + destruct (FLAGS_v c) as [x|]; [|reflexivity].
      apply VerbosityValidator_range, H. auto.
Qed.

(** C8: the validator accepts exactly the values 0 to 4; when every value
    given with [--verbose] or [-v] is in that range the parse lets [main]
    go on to its return; when one of them is outside (-1 and 5 among them)
    the process exits from the parse with status 1, before any call that
    [main] makes itself, so before any fork. *)
Theorem verbosity_range_enforced E argv c :
  (forall x, VerbosityValidator x = true <-> 0 <= x <= 4) /\
  ((forall x, FLAGS_verbose c = Some x \/ FLAGS_v c = Some x -> 0 <= x <= 4) ->
   exists rv, fst (main E argv c) = Return rv) /\
  (forall x, FLAGS_verbose c = Some x \/ FLAGS_v c = Some x ->
     ~ 0 <= x <= 4 ->
     fst (main E argv c) = Exit 1 /\
     events (snd (main E argv c)) = [] /\
     forked (events (snd (main E argv c))) = []).
Proof.
  split; [exact VerbosityValidator_range|]. split.
  - intros H. apply parse_accepts in H. unfold main. rewrite H. cbn [negb].
    destruct (FLAGS_h c || FLAGS_help c); [eauto|].
    destruct (FLAGS_version c); [eauto|].
    destruct (supervise _ _ _). eauto.
  - intros x Hx Hr.
    assert (Hp : ParseCommandLineNonHelpFlags c = false).
    { destruct (ParseCommandLineNonHelpFlags c) eqn:Hp; [|reflexivity].
      rewrite parse_accepts in Hp. exfalso. apply Hr, Hp, Hx. }
    unfold main. rewrite Hp. auto.
Qed.

(** The command lines [-v 5], [--verbose -1] and [-v 4]. *)
Example verbosity_5_rejected E argv :
  main E argv (mkCmdline false false false None (Some 5) false false)
  = (Exit 1, init_state E).
Proof. reflexivity. Qed.

Example verbosity_minus_1_rejected E argv :
  main E argv (mkCmdline false false false (Some (-1)) None false false)
  = (Exit 1, init_state E).
Proof. reflexivity. Qed.

Example verbosity_4_accepted :
  events (snd (main env_prompt ["ign-gazebo"; "-v"; "4"; "-s"]
                 (mkCmdline false false false None (Some 4) true false)))
  = [EvSetVerbosity 4; EvFork Server 100;
     EvExec Server (Some "ign-gazebo-server")
       [Some "ign-gazebo-server"; Some "-v"; Some "4"; Some "-s"; None];
     EvWait 100 0; EvStore RefServer; EvRaise SIGINT; EvStore RefSig;
     EvKill 100 SIGINT].
Proof. vm_compute. reflexivity. Qed.

(** C10: on a command line that passes the parse, with a help flag ([-h]
    or [--help]) and [--version] both set, [main] prints the help text and
    returns 0; that is its only call: the version is not printed and no
    child is forked. *)
Theorem help_wins_over_version E argv c :
  ParseCommandLineNonHelpFlags c = true ->
  FLAGS_h c = true \/ FLAGS_help c = true ->
  FLAGS_version c = true ->
  fst (main E argv c) = Return 0 /\
  events (snd (main E argv c)) = [EvHelp] /\
  ~ In EvVersion (events (snd (main E argv c))) /\
  forked (events (snd (main E argv c))) = [].
Proof.
  intros Hp Hh _. unfold main. rewrite Hp. cbn [negb].
  assert (H : FLAGS_h c || FLAGS_help c = true)
    by (apply orb_true_iff; exact Hh).
  rewrite H. cbn. intuition discriminate.
Qed.

Lemma help_wins_over_version_witness :
  let c := mkCmdline true false true None None false false in
  let argv := ["ign-gazebo"; "-h"; "--version"] in
  fst (main env_prompt argv c) = Return 0 /\
  events (snd (main env_prompt argv c)) = [EvHelp] /\
  ~ In EvVersion (events (snd (main env_prompt argv c))) /\
  forked (events (snd (main env_prompt argv c))) = [].
Proof.
  apply (help_wins_over_version env_prompt ["ign-gazebo"; "-h"; "--version"]
           (mkCmdline true false true None None false false)).
  - reflexivity.
  - left. reflexivity.
  - reflexivity.
Defined.

(** ** The signal callback *)

Lemma flag_ref_eqb_refl r : flag_ref_eqb r r = true.
Proof. now destruct r. Qed.

Lemma events_store r st : events (store r st) = events st ++ [EvStore r].
Proof. unfold events, store, log; simpl. now rewrite map_app. Qed.

Lemma poll_loop_events E pid r n : forall st,
  exists t, events (poll_loop E pid r n st) = events st ++ t /\
            Forall (fun e => of_KillProcess pid r e = true) t.
Proof.
  induction n as [|n IH]; intros st; cbn [poll_loop].
  { exists []. now rewrite app_nil_r. }
  destruct (load r (fl st)).
  { exists []. now rewrite app_nil_r. }
  unfold waitpid. set (p := waitpid_ret E (polls st) pid).
  set (st1 := log (EvWaitpid pid p) _).
  assert (H1 : events st1 = events st ++ [EvWaitpid pid p])
    by (unfold st1; now rewrite events_log).
  assert (Hp : of_KillProcess pid r (EvWaitpid pid p) = true)
    by (simpl; apply Z.eqb_refl).
  destruct (p =? pid).
  - exists [EvWaitpid pid p; EvStore r].
    rewrite events_store, H1, <- app_assoc. split; [reflexivity|].
    repeat constructor; [exact Hp | apply flag_ref_eqb_refl].
  - destruct (IH (log (EvSleep sleepSecs) st1)) as (t & Ht & Hf).
    exists (EvWaitpid pid p :: EvSleep sleepSecs :: t).
    rewrite Ht, events_log, H1, <- !app_assoc. split; [reflexivity|].
    repeat constructor; [exact Hp | exact Hf].
Qed.

(** [KillProcess] starts with the interrupt, and what follows concerns the
    same child only. *)
Lemma KillProcess_events E pid name tm r st :
  exists t, events (KillProcess E pid name tm r st)
            = events st ++ EvKill pid SIGINT :: t /\
            Forall (fun e => of_KillProcess pid r e = true) t.
Proof.
  unfold KillProcess.
  destruct (poll_loop_events E pid r (poll_bound tm) (log (EvKill pid SIGINT) st))
    as (t & Ht & Hf).
  rewrite events_log, <- app_assoc in Ht.
  destruct (load r _).
  - exists t. auto.
  - exists (t ++ [EvErr "Escalating to SIGKILL on" name; EvKill pid SIGKILL]).
    rewrite !events_log, Ht, <- !app_assoc. split; [reflexivity|].
    apply Forall_app; split; [exact Hf|].
    repeat constructor. simpl. apply Z.eqb_refl.
Qed.

Lemma callback_events E c st :
  exists tg ts,
    events (callback E c st)
    = events st ++ relay c (guiPid st) (serverPid st) tg ts /\
    Forall (fun e => of_KillProcess (guiPid st) RefGui e = true) tg /\
    Forall (fun e => of_KillProcess (serverPid st) RefServer e = true) ts.
Proof.
  unfold callback, relay.
  set (st1 := store RefSig st).
  assert (H1 : events st1 = events st ++ [EvStore RefSig]) by apply events_store.
  change (guiPid st1) with (guiPid st).
  destruct (negb (FLAGS_s c)); destruct (negb (FLAGS_g c)).
  - destruct (KillProcess_events E (guiPid st) "ign-gazebo-gui" 5%float RefGui st1)
      as (tg & Hg & Hfg).
    set (st2 := KillProcess E (guiPid st) _ _ _ st1) in *.
    assert (Hpid : serverPid st2 = serverPid st)
      by (apply (steps_pids st1 st2), KillProcess_steps).
    destruct (KillProcess_events E (serverPid st2) "ign-gazebo-server" 5%float
                RefServer st2) as (ts & Hs & Hfs).
    exists tg, ts. rewrite Hs, Hg, H1, Hpid in *. rewrite <- !app_assoc.
    auto.
  - destruct (KillProcess_events E (guiPid st) "ign-gazebo-gui" 5%float RefGui st1)
      as (tg & Hg & Hfg).
    exists tg, []. rewrite Hg, H1, <- !app_assoc, app_nil_r. auto.
  - destruct (KillProcess_events E (serverPid st1) "ign-gazebo-server" 5%float
                RefServer st1) as (ts & Hs & Hfs).
    exists [], ts. rewrite Hs, H1, <- !app_assoc. auto.
  - exists [], []. rewrite H1. auto.
Qed.

Lemma callback_after_store E c st :
  rtc step (store RefSig st) (callback E c st).
Proof.
  unfold callback.
  destruct (negb (FLAGS_s c)); destruct (negb (FLAGS_g c)).
  - etrans; apply KillProcess_steps.
  - apply KillProcess_steps.
  - apply KillProcess_steps.
  - reflexivity.
Qed.

(** Every entry the callback adds is made with [sigKilled] already set. *)
Lemma callback_trace E c st :
  exists added,
    trace (callback E c st) = trace st ++ added /\
    Forall (fun x => sigKilled (snd x) = true) added.
Proof.
  pose proof (callback_after_store E c st) as H.
  destruct (steps_trace _ _ H) as (added & Ht & _ & Hf).
  exists ((EvStore RefSig, store_true RefSig (fl st)) :: added).
  rewrite Ht. cbn [store log trace fl]. rewrite <- app_assoc.
  split; [reflexivity|]. constructor; [reflexivity|].
  eapply Forall_impl; [exact Hf|]. intros x Hx. apply (Hx RefSig). reflexivity.
Qed.

Lemma relay_pids c g s g' s' tg ts :
  (FLAGS_s c = false -> g = g') -> (FLAGS_g c = false -> s = s') ->
  relay c g s tg ts = relay c g' s' tg ts.
Proof.
  unfold relay. intros Hg Hs.
  destruct (FLAGS_s c), (FLAGS_g c); simpl;
    rewrite ?Hg, ?Hs by reflexivity; reflexivity.
Qed.

(** *** The callback has run on the launched children *)

Section Relay.

Context (E : env) (c : cmdline).

Lemma relayed_app l l' : relayed E c l -> relayed E c (l ++ l').
Proof.
  intros (t1 & tg & ts & t2 & ->). exists t1, tg, ts, (t2 ++ l').
  now rewrite <- !app_assoc.
Qed.

Lemma relayed_steps st st' :
  rtc step st st' -> relayed E c (events st) -> relayed E c (events st').
Proof.
  intros H Hr. destruct (steps_events _ _ H) as (l & ->).
  now apply relayed_app.
Qed.

Lemma pids_launched_steps st st' :
  rtc step st st' -> pids_launched E c st -> pids_launched E c st'.
Proof.
  intros H Hp r Hr. destruct (steps_pids _ _ H) as [Hs Hg].
  rewrite <- (Hp r Hr). destruct r; simpl; congruence.
Qed.

Lemma relay_launched st tg ts :
  pids_launched E c st ->
  relay c (guiPid st) (serverPid st) tg ts
  = relay c (child_pid E Gui) (child_pid E Server) tg ts.
Proof.
  intros Hp. apply relay_pids; intros H.
  - apply (Hp Gui). simpl. now rewrite H.
  - apply (Hp Server). simpl. now rewrite H.
Qed.

Lemma callback_relayed st :
  pids_launched E c st -> relayed E c (events (callback E c st)).
Proof.
  intros Hp. destruct (callback_events E c st) as (tg & ts & He & _).
  exists (events st), tg, ts, []. rewrite He, app_nil_r.
  now rewrite (relay_launched st tg ts Hp).
Qed.

Lemma by_relay_deliver n : forall st,
  by_relay E c st -> by_relay E c (deliver E c n st).
Proof.
  intros st [Hp Hr]. split.
  - eapply pids_launched_steps; [apply deliver_steps | exact Hp].
  - destruct n as [|n]; [exact Hr|]. intros _.
    unfold deliver. cbn [Nat.iter]. apply callback_relayed.
    eapply pids_launched_steps; [apply (deliver_steps E c n) | exact Hp].
Qed.

Lemma by_relay_log e st :
  is_launch e = false -> by_relay E c st -> by_relay E c (log e st).
Proof.
  intros He [Hp Hr]. split.
  - intros r H. rewrite <- (Hp r H). now destruct r.
  - intros H. rewrite events_log. apply relayed_app, Hr, H.
Qed.

Lemma by_relay_store r st :
  r <> RefSig -> by_relay E c st -> by_relay E c (store r st).
Proof.
  intros Hne [Hp Hr]. split.
  - intros r' H. rewrite <- (Hp r' H). now destruct r'.
  - intros H. rewrite events_store. apply relayed_app, Hr.
    destruct r; simpl in H; congruence.
Qed.

Lemma by_relay_reap st :
  by_relay E c st -> by_relay E c (snd (reap E c st)).
Proof.
  intros H. unfold reap. destruct (wait_ret E) as [dead status]. cbn [snd].
  apply by_relay_deliver.
  set (st1 := deliver E c (async E 1) _).
  assert (H1 : by_relay E c st1).
  { apply by_relay_deliver, by_relay_log; [reflexivity|].
    apply by_relay_deliver, H. }
  destruct (dead =? guiPid st1); [apply by_relay_store; [discriminate|exact H1]|].
  destruct (dead =? serverPid st1); [apply by_relay_store; [discriminate|exact H1]|].
  exact H1.
Qed.

Lemma by_relay_launched argv : by_relay E c (launched E argv c).
Proof.
  split.
  - intros r Hr. now apply launched_pid.
  - destruct (pristine_launched E argv c) as [-> _]. discriminate.
Qed.

End Relay.

(** [wait] has returned when [reap] is over. *)
Lemma reap_waited E c st :
  In (EvWait (fst (wait_ret E)) (snd (wait_ret E))) (events (snd (reap E c st))).
Proof.
  unfold reap. destruct (wait_ret E) as [dead status]. cbn [fst snd].
  set (st0 := log (EvWait dead status) _).
  set (st1 := deliver E c (async E 1) st0).
  assert (H : rtc step st0
                (deliver E c (async E 2)
                   (if dead =? guiPid st1 then store RefGui st1
                    else if dead =? serverPid st1 then store RefServer st1
                    else st1))).
  { etrans; [|apply deliver_steps]. etrans; [apply (deliver_steps E c (async E 1))|].
    fold st1. destruct (dead =? guiPid st1); [apply rtc_once, step_store|].
    destruct (dead =? serverPid st1); [apply rtc_once, step_store|reflexivity]. }
  destruct (steps_events _ _ H) as (l & ->).
  apply in_or_app. left. unfold st0. rewrite events_log.
  apply in_or_app. right. left. reflexivity.
Qed.

(** C6: a run of the callback adds to the trace, in this order, the
    assignment of true to [sigKilled], then, unless [-s] is set, the calls
    of [KillProcess] for the GUI, the first of which is its SIGINT, then,
    unless [-g] is set, the calls of [KillProcess] for the server, the first
    of which is its SIGINT; each of these entries is made with [sigKilled]
    set. A run of [main] that launches contains such a run of the callback
    on the pids of the launched children, so with neither flag both
    children are sent SIGINT, the GUI first, before [main] returns. *)
Theorem callback_relays E c st :
  (exists added tg ts,
     trace (callback E c st) = trace st ++ added /\
     map fst added = relay c (guiPid st) (serverPid st) tg ts /\
     Forall (fun x => sigKilled (snd x) = true) added /\
     Forall (fun e => of_KillProcess (guiPid st) RefGui e = true) tg /\
     Forall (fun e => of_KillProcess (serverPid st) RefServer e = true) ts) /\
  (forall argv,
     launches c = true ->
     exists t1 tg ts t2,
       events (snd (main E argv c)) =
       t1 ++ relay c (child_pid E Gui) (child_pid E Server) tg ts ++ t2) /\
  (forall g s tg ts,
     FLAGS_s c = false -> FLAGS_g c = false ->
     relay c g s tg ts =
     EvStore RefSig :: EvKill g SIGINT :: tg ++ EvKill s SIGINT :: ts).
Proof.
  split; [|split].
  - destruct (callback_trace E c st) as (added & Ht & Hs).
    destruct (callback_events E c st) as (tg & ts & He & Hg & Hv).
    exists added, tg, ts. repeat split; try assumption.
    unfold events in He. rewrite Ht, map_app in He.
    now apply app_inv_head in He.
  - intros argv Hl. rewrite (main_launches _ _ _ Hl). cbn [snd].
    change (relayed E c (events (snd (supervise E c (launched E argv c))))).
    unfold supervise.
    pose proof (by_relay_reap E c _ (by_relay_launched E c argv)) as Hr.
    destruct (reap E c (launched E argv c)) as [rv st1]. cbn [snd] in *.
    eapply relayed_steps; [apply deliver_steps|].
    apply (by_relay_deliver E c (async E 3)) in Hr as H3.
    destruct (sigKilled (fl st1)) eqn:Hsig; cbn [negb].
    + destruct H3 as [_ H3]. apply H3.
      apply (steps_flags _ _ (deliver_steps E c (async E 3) st1) RefSig Hsig).
    + apply callback_relayed. destruct H3 as [H3 _].
      intros r Hp. rewrite <- (H3 r Hp). now destruct r.
  - intros g s tg ts Hs Hg. unfold relay. now rewrite Hs, Hg.
Qed.

(** C4: in a run that launches, if [sigKilled] is still false when [main]
    tests it after [wait] has returned, [main] raises SIGINT, the callback
    runs at once, and every child that was planned, the sibling of the one
    that exited among them, is sent SIGINT before [main] returns. *)
Theorem unsolicited_exit_raises E argv c :
  launches c = true ->
  sigKilled (fl (snd (reap E c (launched E argv c)))) = false ->
  exists t1 tg ts t2,
    events (snd (main E argv c)) =
      t1 ++ EvRaise SIGINT
         :: relay c (child_pid E Gui) (child_pid E Server) tg ts ++ t2 /\
    In (EvWait (fst (wait_ret E)) (snd (wait_ret E))) t1 /\
    (forall r, planned c r = true ->
       In (EvKill (child_pid E r) SIGINT)
          (relay c (child_pid E Gui) (child_pid E Server) tg ts)).
Proof.
  intros Hl Hsig. rewrite (main_launches _ _ _ Hl). cbn [snd].
  unfold supervise.
  pose proof (reap_waited E c (launched E argv c)) as Hw.
  pose proof (by_relay_reap E c _ (by_relay_launched E c argv)) as [Hp _].
  destruct (reap E c (launched E argv c)) as [rv st1]. cbn [snd] in *.
  rewrite Hsig. cbn [negb].
  set (st3 := deliver E c (async E 3) st1).
  assert (H3 : rtc step st1 st3) by apply deliver_steps.
  assert (Hp3 : pids_launched E c (log (EvRaise SIGINT) st3)).
  { intros r Hr. rewrite <- (pids_launched_steps E c _ _ H3 Hp r Hr).
    now destruct r. }
  destruct (callback_events E c (log (EvRaise SIGINT) st3)) as (tg & ts & He & _).
  rewrite (relay_launched E c _ tg ts Hp3), events_log in He.
  destruct (steps_events _ _ (deliver_steps E c (async E 4)
                                (callback E c (log (EvRaise SIGINT) st3))))
    as (t2 & H4).
  destruct (steps_events _ _ H3) as (l3 & Hl3).
  exists (events st3), tg, ts, t2. split; [|split].
  - rewrite H4, He, <- !app_assoc. reflexivity.
  - rewrite Hl3. apply in_or_app. left. exact Hw.
  - intros r Hr. unfold relay. right. apply in_or_app.
    destruct r; simpl in Hr; [right | left]; rewrite Hr; left; reflexivity.
Qed.

Lemma unsolicited_exit_raises_witness :
  exists t1 tg ts t2,
    events (snd (main env_prompt ["ign-gazebo"] no_flags)) =
      t1 ++ EvRaise SIGINT
         :: relay no_flags (child_pid env_prompt Gui) (child_pid env_prompt Server)
              tg ts ++ t2 /\
    In (EvWait (fst (wait_ret env_prompt)) (snd (wait_ret env_prompt))) t1 /\
    (forall r, planned no_flags r = true ->
       In (EvKill (child_pid env_prompt r) SIGINT)
          (relay no_flags (child_pid env_prompt Gui) (child_pid env_prompt Server)
             tg ts)).
Proof.
  apply (unsolicited_exit_raises env_prompt ["ign-gazebo"] no_flags).
  - reflexivity.
  - vm_compute. reflexivity.
Defined.

(** ** The flags along a run *)

(** A sequence of booleans that never goes from true to false. *)
Lemma rises_falls_sorted (l : list bool) : forall a,
  StronglySorted (fun x y => x = true -> y = true) (a :: l) ->
  falls (a :: l) = 0%nat /\
  rises (a :: l) = (if negb a && existsb id l then 1 else 0)%nat.
Proof.
  induction l as [|b l IH]; intros a Hs.
  - simpl. rewrite andb_false_r. split; reflexivity.
  - inversion Hs as [|? ? Hs' Hall]; subst.
    destruct (IH b Hs') as [IHf IHr].
    inversion Hall as [|? ? Hab Hal]; subst.
    change (falls (a :: b :: l))
      with ((if a && negb b then 1 else 0) + falls (b :: l))%nat.
    change (rises (a :: b :: l))
      with ((if negb a && b then 1 else 0) + rises (b :: l))%nat.
    rewrite IHf, IHr. cbn [existsb id].
    destruct a, b; simpl; auto; try (specialize (Hab eq_refl); discriminate).
Qed.

Lemma sorted_load r (l : list flags) :
  StronglySorted flags_le l ->
  StronglySorted (fun x y => x = true -> y = true) (map (load r) l).
Proof.
  induction 1 as [|f l Hs IH Hf]; simpl; constructor; [exact IH|].
  apply Forall_map. eapply Forall_impl; [exact Hf|].
  intros g Hg. apply Hg.
Qed.

Lemma sorted_from_false (l : list bool) :
  StronglySorted (fun x y => x = true -> y = true) l ->
  StronglySorted (fun x y => x = true -> y = true) (false :: l).
Proof.
  intros H. constructor; [exact H|].
  apply Forall_forall. intros; discriminate.
Qed.

Lemma StronglySorted_after {A} (R : A -> A -> Prop) l1 x l2 :
  StronglySorted R (l1 ++ x :: l2) -> Forall (R x) l2.
Proof.
  induction l1 as [|y l1 IH]; simpl; intros H; inversion H; subst; auto.
Qed.

Lemma pristine_unsignalled st :
  pristine st -> existsb id (map sigKilled (snapshots st)) = false.
Proof.
  intros [_ Hp]. unfold snapshots.
  induction Hp as [|x l Hx _ IH]; [reflexivity|].
  simpl. rewrite Hx, IH. reflexivity.
Qed.

Lemma supervise_signalled E c st :
  sigKilled (fl (snd (supervise E c st))) = true.
Proof.
  unfold supervise. destruct (reap E c st) as [rv st1]. cbn [snd].
  apply (steps_flags _ _ (deliver_steps E c (async E 4) _) RefSig).
  destruct (sigKilled (fl st1)) eqn:Hsig; cbn [negb].
  - apply (steps_flags _ _ (deliver_steps E c (async E 3) st1) RefSig Hsig).
  - pose proof (callback_after_store E c
                  (log (EvRaise SIGINT) (deliver E c (async E 3) st1))) as H.
    apply (steps_flags _ _ H RefSig). reflexivity.
Qed.

(** C7: along every run of [main], none of the three flags ever goes from
    true to false and each goes from false to true at most once;
    [sigKilled] does so exactly once in a run that launches (and the flags
    are never touched in a run that stops at the parse, at the help or at
    the version); no fork comes after an entry made with [sigKilled] set. *)
Theorem flags_are_monotonic E argv c :
  let st := snd (main E argv c) in
  (forall r,
     falls (false :: map (load r) (snapshots st)) = 0%nat /\
     (rises (false :: map (load r) (snapshots st)) <= 1)%nat) /\
  rises (false :: map sigKilled (snapshots st))
    = (if launches c then 1 else 0)%nat /\
  (forall t1 x t2,
     trace st = t1 ++ x :: t2 -> sigKilled (snd x) = true ->
     forked (map fst t2) = []).
Proof.
  intros st. pose proof (main_consistent E argv c) as [Hsorted Hbelow Hseen Hlaunch].
  fold st in Hsorted, Hbelow, Hseen, Hlaunch.
  assert (Hr : forall r,
    falls (false :: map (load r) (snapshots st)) = 0%nat /\
    rises (false :: map (load r) (snapshots st))
      = (if existsb id (map (load r) (snapshots st)) then 1 else 0)%nat).
  { intros r. apply rises_falls_sorted, sorted_from_false, sorted_load, Hsorted. }
  split; [|split].
  - intros r. destruct (Hr r) as [Hf ->]. split; [exact Hf|].
    destruct (existsb _ _); lia.
  - destruct (Hr RefSig) as [_ Hrs]. change (load RefSig) with sigKilled in Hrs.
    rewrite Hrs. destruct (launches c) eqn:Hl.
    + assert (Hsig : sigKilled (fl st) = true).
      { unfold st. rewrite (main_launches _ _ _ Hl). apply supervise_signalled. }
      apply (Hseen RefSig) in Hsig. apply Exists_exists in Hsig as (f & Hin & Hf).
      assert (He : existsb id (map sigKilled (snapshots st)) = true).
      { apply existsb_exists. exists true. split; [|reflexivity].
        apply in_map_iff. exists f. split; [exact Hf|].
        now apply list_elem_of_In. }
      now rewrite He.
    + assert (Hp : pristine st).
      { assert (H0 : pristine (init_state E)) by (split; [reflexivity|constructor]).
        unfold st.
        destruct (main_stops E argv c Hl) as [-> | [-> | ->]];
          auto using pristine_log. }
      now rewrite (pristine_unsignalled st Hp).
  - intros t1 x t2 Ht Hx. apply forked_no_launch.
    unfold snapshots in Hsorted. rewrite Ht, map_app in Hsorted. simpl in Hsorted.
    apply StronglySorted_after in Hsorted.
    rewrite Ht in Hlaunch. apply Forall_app in Hlaunch as [_ Hlaunch].
    inversion Hlaunch as [|? ? _ Hl2]; subst.
    rewrite Forall_forall in Hl2 |- *. intros y Hy.
    specialize (Hl2 y Hy).
    rewrite Forall_forall in Hsorted.
    assert (Hsy : sigKilled (snd y) = true).
    { assert (Hle : flags_le (snd x) (snd y)).
      { apply Hsorted. apply list_elem_of_In, in_map, list_elem_of_In, Hy. }
      exact (Hle RefSig Hx). }
    destruct (is_launch (fst y)); [|reflexivity].
    rewrite Hl2 in Hsy by reflexivity. discriminate.
Qed.

(** * Further properties of the launcher *)

(** ** [KillProcess]: the child exits within the window *)

Lemma tally_app p l1 l2 : tally p (l1 ++ l2) = (tally p l1 + tally p l2)%nat.
Proof. induction l1 as [|e l1 IH]; simpl; [reflexivity | rewrite IH; lia]. Qed.

(** The first [j] rounds of the loop when none of them reports the
    child. *)
Lemma poll_loop_rounds E pid r j : forall m st,
  load r (fl st) = false ->
  (forall k, (polls st <= k < polls st + j)%nat -> waitpid_ret E k pid <> pid) ->
  poll_loop E pid r (j + m) st =
  poll_loop E pid r m
    (mkState (fl st) (serverPid st) (guiPid st) (polls st + j)
       (trace st ++
        flat_map (fun k => [(EvWaitpid pid (waitpid_ret E k pid), fl st);
                            (EvSleep sleepSecs, fl st)])
                 (seq (polls st) j))).
Proof.
  induction j as [|j IH]; intros m st Hr Hw.
  - simpl. destruct st; simpl. now rewrite Nat.add_0_r, app_nil_r.
  - cbn [Nat.add poll_loop]. rewrite Hr. unfold waitpid.
    destruct (Z.eqb_spec (waitpid_ret E (polls st) pid) pid) as [Heq|_].
    { exfalso. apply (Hw (polls st)); [lia | exact Heq]. }
    rewrite IH.
    + cbn [log fl serverPid guiPid polls trace seq flat_map].
      f_equal. f_equal; [lia|]. now rewrite <- !app_assoc.
    + exact Hr.
    + cbn [log polls]. intros k Hk. apply Hw. lia.
Qed.

(** X1: a child whose flag is false and whose exit is reported by the
    round [j] of the window (rounds counted from 0, [j] below the bound),
    and by no earlier round, costs one SIGINT, [j] rounds of waitpid and
    sleep and one more waitpid; its flag is then set and [KillProcess]
    returns at once: no further sleep, no SIGKILL. *)
Theorem KillProcess_child_exits E pid name timeout r st j :
  load r (fl st) = false ->
  (j < poll_bound timeout)%nat ->
  (forall k, (polls st <= k < polls st + j)%nat -> waitpid_ret E k pid <> pid) ->
  waitpid_ret E (polls st + j) pid = pid ->
  let st' := KillProcess E pid name timeout r st in
  events st' =
    events st ++ [EvKill pid SIGINT] ++ window E pid (polls st) j
      ++ [EvWaitpid pid pid; EvStore r] /\
  fl st' = store_true r (fl st) /\
  polls st' = (polls st + j + 1)%nat.
Proof.
  intros Hr Hj Hw Hx st'. subst st'. unfold KillProcess.
  replace (poll_bound timeout) with (j + S (poll_bound timeout - j - 1))%nat by lia.
  rewrite poll_loop_rounds; [| exact Hr | exact Hw].
  cbn [poll_loop log fl serverPid guiPid polls trace]. rewrite Hr.
  unfold waitpid. cbn [log fl serverPid guiPid polls trace].
  rewrite Hx, Z.eqb_refl.
  cbn [store log fl serverPid guiPid polls trace].
  rewrite load_store_true.
  unfold events, window, store, log. cbn [trace fl polls serverPid guiPid].
  split; [|split; [reflexivity | lia]].
  rewrite !map_app, window_events. cbn [map fst].
  now rewrite <- !app_assoc.
Qed.

Lemma KillProcess_child_exits_witness :
  let st := init_state env_prompt in
  let st' := KillProcess env_prompt 200 "ign-gazebo-gui" 5%float RefGui st in
  events st' =
    events st ++ [EvKill 200 SIGINT] ++ window env_prompt 200 (polls st) 0
      ++ [EvWaitpid 200 200; EvStore RefGui] /\
  fl st' = store_true RefGui (fl st) /\
  polls st' = (polls st + 0 + 1)%nat.
Proof.
  apply (KillProcess_child_exits env_prompt 200 "ign-gazebo-gui" 5%float RefGui
           (init_state env_prompt) 0).
  - reflexivity.
  - rewrite poll_bound_5. lia.
  - intros k Hk. simpl in Hk. lia.
  - reflexivity.
Defined.

(** ** [KillProcess]: what every call does *)

Lemma flag_ref_eqb_eq a b : flag_ref_eqb a b = true -> a = b.
Proof. destruct a, b; simpl; congruence. Qed.

Lemma load_store_other r r' f : r' <> r -> load r' (store_true r f) = load r' f.
Proof. destruct r, r'; simpl; congruence. Qed.

Lemma tally_of_poll_kill pid r sig t :
  Forall (fun e => of_poll pid r e = true) t -> tally (is_kill sig) t = 0%nat.
Proof.
  induction 1 as [|e t He _ IH]; [reflexivity|].
  simpl. rewrite IH. destruct e; simpl in *; congruence.
Qed.

Lemma of_poll_target pid r e p :
  of_poll pid r e = true -> target e = Some p -> p = pid.
Proof.
  destruct e; simpl; try discriminate.
  intros H [= <-]. now apply Z.eqb_eq.
Qed.

(** The loop, whatever the environment answers. *)
Lemma poll_loop_accounting E pid r n : forall st,
  let st' := poll_loop E pid r n st in
  exists t,
    events st' = events st ++ t /\
    Forall (fun e => of_poll pid r e = true) t /\
    polls st' = (polls st + tally is_waitpid t)%nat /\
    (tally is_waitpid t <= n)%nat /\
    (tally is_sleep t <= tally is_waitpid t)%nat /\
    (forall r', r' <> r -> load r' (fl st') = load r' (fl st)) /\
    (load r (fl st') = false ->
     tally is_waitpid t = n /\ tally is_sleep t = n) /\
    serverPid st' = serverPid st /\ guiPid st' = guiPid st.
Proof.
  induction n as [|n IH]; intros st; cbn [poll_loop]; cbn zeta.
  { exists []. rewrite app_nil_r. simpl. split_and!; auto; lia. }
  destruct (load r (fl st)) eqn:Hr.
  { exists []. rewrite app_nil_r. simpl. split_and!; auto; try lia.
    congruence. }
  unfold waitpid. set (p := waitpid_ret E (polls st) pid).
  destruct (Z.eqb_spec p pid) as [Hp|Hp].
  - exists [EvWaitpid pid p; EvStore r].
    rewrite events_store, events_log. cbn [store log fl polls serverPid guiPid].
    rewrite <- app_assoc. rewrite load_store_true. simpl.
    split_and!; auto; try lia; try discriminate.
    + repeat constructor; simpl; [apply Z.eqb_refl | apply flag_ref_eqb_refl].
    + intros r' Hne. now apply load_store_other.
  - set (st1 := log (EvSleep sleepSecs) (log (EvWaitpid pid p) _)).
    destruct (IH st1) as (t & He & Hf & Hpolls & Hw & Hs & Ho & Hfull & Hsp & Hgp).
    exists (EvWaitpid pid p :: EvSleep sleepSecs :: t).
    rewrite He. unfold st1 at 1. rewrite !events_log, <- !app_assoc.
    rewrite Hpolls. cbn [tally is_waitpid is_sleep].
    unfold st1 at 1. cbn [log polls].
    split_and!; auto; try lia.
    + repeat constructor; simpl; [apply Z.eqb_refl | exact Hf].
    + intros H. destruct (Hfull H) as [-> ->]. auto.
Qed.

(** The facts about one call that the rest of the file uses. *)
Lemma KillProcess_summary E pid name timeout r st :
  let st' := KillProcess E pid name timeout r st in
  exists added,
    events st' = events st ++ EvKill pid SIGINT :: added /\
    tally (is_kill SIGINT) added = 0%nat /\
    tally (is_kill SIGKILL) added = (if load r (fl st') then 0 else 1)%nat /\
    (load r (fl st') = false ->
     last added = Some (EvKill pid SIGKILL) /\
     tally is_waitpid added = poll_bound timeout /\
     tally is_sleep added = poll_bound timeout) /\
    polls st' = (polls st + tally is_waitpid added)%nat /\
    (tally is_waitpid added <= poll_bound timeout)%nat /\
    (tally is_sleep added <= tally is_waitpid added)%nat /\
    Forall (fun e => forall p, target e = Some p -> p = pid) added /\
    (forall r', r' <> r -> load r' (fl st') = load r' (fl st)) /\
    serverPid st' = serverPid st /\ guiPid st' = guiPid st.
Proof.
  cbn zeta. unfold KillProcess.
  destruct (poll_loop_accounting E pid r (poll_bound timeout)
              (log (EvKill pid SIGINT) st))
    as (t & He & Hf & Hpolls & Hw & Hs & Ho & Hfull & Hsp & Hgp).
  cbn zeta in *. rewrite events_log, <- app_assoc in He. cbn [app] in He.
  cbn [log fl polls serverPid guiPid] in Hpolls, Ho, Hsp, Hgp.
  set (st2 := poll_loop E pid r (poll_bound timeout) (log (EvKill pid SIGINT) st)) in *.
  assert (Ht : Forall (fun e => forall p, target e = Some p -> p = pid) t).
  { eapply Forall_impl; [exact Hf|]. intros e H p. now apply (of_poll_target pid r). }
  destruct (load r (fl st2)) eqn:Hr.
  - exists t. rewrite Hr.
    rewrite !(tally_of_poll_kill pid r _ t Hf).
    split_and!; auto. discriminate.
  - destruct (Hfull eq_refl) as [Hfw Hfs].
    exists (t ++ [EvErr "Escalating to SIGKILL on" name; EvKill pid SIGKILL]).
    rewrite !events_log, He. cbn [log fl polls serverPid guiPid]. rewrite Hr.
    rewrite !tally_app, !(tally_of_poll_kill pid r _ t Hf).
    cbn [tally is_kill is_waitpid is_sleep signal_eqb].
    rewrite <- !app_assoc. cbn [app].
    split_and!; auto; try lia.
    + intros _. split_and!; try lia.
      change [EvErr "Escalating to SIGKILL on" name; EvKill pid SIGKILL]
        with ([EvErr "Escalating to SIGKILL on" name] ++ [EvKill pid SIGKILL]).
      rewrite app_assoc. apply last_snoc.
    + apply Forall_app; split; [exact Ht|].
      repeat constructor; simpl; try discriminate. now intros p [= <-].
Qed.

(** X2: whatever the environment answers, a call of [KillProcess] sends
    SIGINT once, first; it calls waitpid at most [poll_bound _timeout]
    times and sleeps at most once per waitpid; every kill and waitpid is
    aimed at [_pid]; it sends SIGKILL, once and as its last call, exactly
    when the flag is false on return, and then the whole budget of rounds
    has gone by before; it changes no other flag and no pid variable. *)
Theorem KillProcess_accounting E pid name timeout r st :
  let st' := KillProcess E pid name timeout r st in
  exists added,
    events st' = events st ++ EvKill pid SIGINT :: added /\
    tally (is_kill SIGINT) added = 0%nat /\
    tally (is_kill SIGKILL) added = (if load r (fl st') then 0 else 1)%nat /\
    (load r (fl st') = false ->
     last added = Some (EvKill pid SIGKILL) /\
     tally is_waitpid added = poll_bound timeout /\
     tally is_sleep added = poll_bound timeout) /\
    polls st' = (polls st + tally is_waitpid added)%nat /\
    (tally is_waitpid added <= poll_bound timeout)%nat /\
    (tally is_sleep added <= tally is_waitpid added)%nat /\
    Forall (fun e => forall p, target e = Some p -> p = pid) added /\
    (forall r', r' <> r -> load r' (fl st') = load r' (fl st)) /\
    serverPid st' = serverPid st /\ guiPid st' = guiPid st.
Proof. exact (KillProcess_summary E pid name timeout r st). Qed.

(** ** The callback: bounded work *)

Lemma tally_cons p e l :
  tally p (e :: l) = ((if p e then 1 else 0) + tally p l)%nat.
Proof. reflexivity. Qed.

Lemma tally_none p l :
  Forall (fun e => p e = false) l -> tally p l = 0%nat.
Proof.
  induction 1 as [|e l He _ IH]; [reflexivity|]. simpl. now rewrite He, IH.
Qed.



(** ** The callback once the children are reaped *)

Lemma KillProcess_dead_eq E pid name timeout r st :
  load r (fl st) = true ->
  KillProcess E pid name timeout r st = log (EvKill pid SIGINT) st.
Proof.
  intros H. unfold KillProcess. rewrite poll_loop_dead by exact H.
  cbn [log fl]. now rewrite H.
Qed.

(** X4: when the flag of every planned child is already set, a run of the
    callback (a second termination signal, say) sets [sigKilled], sends
    SIGINT again to each planned child, the GUI first, and returns: no
    waitpid, no sleep, no SIGKILL, and no other flag changes. *)
Theorem callback_on_reaped_children E c st :
  (planned c Gui = true -> guiKilled (fl st) = true) ->
  (planned c Server = true -> serverKilled (fl st) = true) ->
  let st' := callback E c st in
  events st' = events st ++ relay c (guiPid st) (serverPid st) [] [] /\
  fl st' = store_true RefSig (fl st) /\
  polls st' = polls st.
Proof.
  intros Hg Hs. cbn zeta. unfold callback, relay, planned in *.
  destruct (negb (FLAGS_s c)); destruct (negb (FLAGS_g c)).
  - rewrite (KillProcess_dead_eq E _ _ _ RefGui (store RefSig st))
      by (apply Hg; reflexivity).
    rewrite KillProcess_dead_eq by (apply Hs; reflexivity).
    rewrite !events_log, events_store, <- !app_assoc. auto.
  - rewrite KillProcess_dead_eq by (apply Hg; reflexivity).
    rewrite !events_log, events_store, <- !app_assoc. auto.
  - rewrite KillProcess_dead_eq by (apply Hs; reflexivity).
    rewrite !events_log, events_store, <- !app_assoc. auto.
  - rewrite events_store. auto.
Qed.

Lemma callback_on_reaped_children_witness :
  let st := mkState (mkFlags false true true) 100 200 0 [] in
  let st' := callback env_stubborn no_flags st in
  events st' = events st ++ relay no_flags (guiPid st) (serverPid st) [] [] /\
  fl st' = store_true RefSig (fl st) /\
  polls st' = polls st.
Proof.
  apply (callback_on_reaped_children env_stubborn no_flags
           (mkState (mkFlags false true true) 100 200 0 [])); reflexivity.
Defined.

(** ** The shape of a run *)

Section Shutdown.

Context (E : env) (c : cmdline).

Lemma shuts_down_refl st : shuts_down E c st st.
Proof. exists []. now rewrite app_nil_r. Qed.

Lemma shuts_down_trans st1 st2 st3 :
  shuts_down E c st1 st2 -> shuts_down E c st2 st3 -> shuts_down E c st1 st3.
Proof.
  intros (a & Ha & Hfa) (b & Hb & Hfb). exists (a ++ b).
  rewrite Hb, Ha, <- app_assoc. split; [reflexivity|].
  apply Forall_app; auto.
Qed.

Lemma shuts_down_store r st : shuts_down E c st (store r st).
Proof.
  exists [EvStore r]. rewrite events_store. split; [reflexivity|].
  repeat constructor. intros p; discriminate.
Qed.

Lemma shuts_down_KillProcess r name timeout ref st :
  planned c r = true -> pids_launched E c st ->
  shuts_down E c st (KillProcess E (pid_of r st) name timeout ref st).
Proof.
  intros Hr Hp.
  destruct (KillProcess_events E (pid_of r st) name timeout ref st)
    as (t & He & Hf).
  exists (EvKill (pid_of r st) SIGINT :: t). split; [exact He|].
  assert (Hown : forall e, of_KillProcess (pid_of r st) ref e = true ->
                           is_shutdown e = true /\ own_target E c e).
  { intros e H. split; [destruct e; simpl in *; congruence|].
    intros p Hp'. exists r. split; [exact Hr|]. rewrite <- (Hp r Hr).
    destruct e; simpl in *; try discriminate;
      injection Hp' as <-; now apply Z.eqb_eq in H. }
  constructor.
  - apply Hown. simpl. apply Z.eqb_refl.
  - eapply Forall_impl; [exact Hf|]. exact Hown.
Qed.

Lemma shuts_down_callback st :
  pids_launched E c st -> shuts_down E c st (callback E c st).
Proof.
  intros Hp. unfold callback.
  set (st1 := store RefSig st).
  assert (H1 : shuts_down E c st st1) by apply shuts_down_store.
  assert (Hp1 : pids_launched E c st1)
    by (intros r Hr; rewrite <- (Hp r Hr); now destruct r).
  destruct (negb (FLAGS_s c)) eqn:Hs; destruct (negb (FLAGS_g c)) eqn:Hg.
  - set (st2 := KillProcess E (guiPid st1) "ign-gazebo-gui" 5%float RefGui st1).
    assert (H2 : shuts_down E c st1 st2)
      by (apply (shuts_down_KillProcess Gui); [exact Hs | exact Hp1]).
    assert (Hp2 : pids_launched E c st2)
      by (eapply pids_launched_steps; [apply KillProcess_steps | exact Hp1]).
    eapply shuts_down_trans; [exact H1|].
    eapply shuts_down_trans; [exact H2|].
    apply (shuts_down_KillProcess Server); [exact Hg | exact Hp2].
  - eapply shuts_down_trans; [exact H1|].
    apply (shuts_down_KillProcess Gui); [exact Hs | exact Hp1].
  - eapply shuts_down_trans; [exact H1|].
    apply (shuts_down_KillProcess Server); [exact Hg | exact Hp1].
  - exact H1.
Qed.

Lemma shuts_down_deliver n : forall st,
  pids_launched E c st -> shuts_down E c st (deliver E c n st).
Proof.
  induction n as [|n IH]; intros st Hp; [apply shuts_down_refl|].
  unfold deliver. cbn [Nat.iter]. fold (deliver E c n st).
  eapply shuts_down_trans; [apply IH, Hp|].
  apply shuts_down_callback.
  eapply pids_launched_steps; [apply deliver_steps | exact Hp].
Qed.

Lemma pids_launched_log e st :
  pids_launched E c st -> pids_launched E c (log e st).
Proof. intros Hp r Hr. rewrite <- (Hp r Hr). now destruct r. Qed.

Lemma pids_launched_store r st :
  pids_launched E c st -> pids_launched E c (store r st).
Proof. intros Hp r' Hr. rewrite <- (Hp r' Hr). now destruct r'. Qed.

(** From the installation of the callback to the test of [sigKilled]:
    calls of the shutdown, the one [wait], calls of the shutdown. *)
Lemma reap_shape st :
  pids_launched E c st ->
  exists st1 st2,
    shuts_down E c st st1 /\
    events st2 = events st1 ++ [EvWait (fst (wait_ret E)) (snd (wait_ret E))] /\
    shuts_down E c st2 (snd (reap E c st)) /\
    pids_launched E c (snd (reap E c st)).
Proof.
  intros Hp. unfold reap. destruct (wait_ret E) as [dead status]. cbn [fst snd].
  set (st1 := deliver E c (async E 0) st).
  set (st2 := log (EvWait dead status) st1).
  set (st3 := deliver E c (async E 1) st2).
  assert (Hp1 : pids_launched E c st1)
    by (eapply pids_launched_steps; [apply deliver_steps | exact Hp]).
  assert (Hp2 : pids_launched E c st2) by now apply pids_launched_log.
  assert (Hp3 : pids_launched E c st3)
    by (eapply pids_launched_steps; [apply deliver_steps | exact Hp2]).
  exists st1, st2. split; [now apply shuts_down_deliver|].
  split; [apply events_log|].
  assert (H3 : shuts_down E c st2 st3) by now apply shuts_down_deliver.
  destruct (dead =? guiPid st3); [|destruct (dead =? serverPid st3)].
  - assert (Hp4 : pids_launched E c (store RefGui st3))
      by now apply pids_launched_store.
    split.
    + eapply shuts_down_trans; [exact H3|].
      eapply shuts_down_trans; [apply shuts_down_store|].
      now apply shuts_down_deliver.
    + eapply pids_launched_steps; [apply deliver_steps | exact Hp4].
  - assert (Hp4 : pids_launched E c (store RefServer st3))
      by now apply pids_launched_store.
    split.
    + eapply shuts_down_trans; [exact H3|].
      eapply shuts_down_trans; [apply shuts_down_store|].
      now apply shuts_down_deliver.
    + eapply pids_launched_steps; [apply deliver_steps | exact Hp4].
  - split.
    + eapply shuts_down_trans; [exact H3|]. now apply shuts_down_deliver.
    + eapply pids_launched_steps; [apply deliver_steps | exact Hp3].
Qed.

(** The rest of [main]: calls of the shutdown, with one [raise] among them
    exactly when [sigKilled] was false at the test. *)
Lemma supervise_shape st :
  pids_launched E c st ->
  exists st3 st4,
    shuts_down E c (snd (reap E c st)) st3 /\
    events st4 =
      events st3 ++ (if sigKilled (fl (snd (reap E c st))) then []
                     else [EvRaise SIGINT]) /\
    shuts_down E c st4 (snd (supervise E c st)).
Proof.
  intros Hp. unfold supervise.
  destruct (reap_shape st Hp) as (? & ? & _ & _ & _ & Hpr).
  destruct (reap E c st) as [rv st2]. cbn [snd] in *.
  set (st3 := deliver E c (async E 3) st2).
  assert (Hp3 : pids_launched E c st3)
    by (eapply pids_launched_steps; [apply deliver_steps | exact Hpr]).
  assert (H3 : shuts_down E c st2 st3) by now apply shuts_down_deliver.
  destruct (sigKilled (fl st2)); cbn [negb].
  - exists st3, st3. split; [exact H3|]. split; [now rewrite app_nil_r|].
    now apply shuts_down_deliver.
  - exists st3, (log (EvRaise SIGINT) st3). split; [exact H3|].
    split; [apply events_log|].
    assert (Hp4 : pids_launched E c (log (EvRaise SIGINT) st3))
      by now apply pids_launched_log.
    eapply shuts_down_trans; [now apply shuts_down_callback|].
    apply shuts_down_deliver.
    eapply pids_launched_steps; [apply callback_steps | exact Hp4].
Qed.

End Shutdown.

(** Every launching run: the launch, then calls of the shutdown around
    one [wait] and at most one [raise]. *)
Lemma main_shape E argv c :
  launches c = true ->
  exists a b d,
    events (snd (main E argv c)) =
      events (launched E argv c) ++ a
        ++ [EvWait (fst (wait_ret E)) (snd (wait_ret E))] ++ b
        ++ (if sigKilled (fl (snd (reap E c (launched E argv c)))) then []
            else [EvRaise SIGINT]) ++ d /\
    Forall (fun e => is_shutdown e = true /\ own_target E c e) (a ++ b ++ d).
Proof.
  intros Hl. rewrite (main_launches _ _ _ Hl). cbn [snd].
  assert (Hp : pids_launched E c (launched E argv c))
    by (intros r Hr; now apply launched_pid).
  destruct (reap_shape E c _ Hp)
    as (st1 & st2 & (a & Ha & Hfa) & H2 & (b1 & Hb1 & Hfb1) & _).
  destruct (supervise_shape E c _ Hp)
    as (st3 & st4 & (b2 & Hb2 & Hfb2) & H4 & (d & Hd & Hfd)).
  exists a, (b1 ++ b2), d.
  rewrite Hd, H4, Hb2, Hb1, H2, Ha, <- !app_assoc. split; [reflexivity|].
  repeat (apply Forall_app; split); assumption.
Qed.

Lemma tally_shutdown p l (P : event -> Prop) :
  (forall e, is_shutdown e = true -> p e = false) ->
  Forall (fun e => is_shutdown e = true /\ P e) l -> tally p l = 0%nat.
Proof.
  intros Hp Hl. apply tally_none. eapply Forall_impl; [exact Hl|].
  intros e [He _]. now apply Hp.
Qed.

Lemma tally_spawn_events p E r argv :
  (forall e, is_launch e = true -> p e = false) ->
  tally p (spawn_events E r argv) = 0%nat.
Proof.
  intros Hp. unfold spawn_events. destruct (fork_ret E r); simpl;
    rewrite ?Hp by reflexivity; reflexivity.
Qed.

Lemma tally_launched p E argv c :
  (forall e, is_launch e = true -> p e = false) ->
  tally p (events (launched E argv c))
  = (if p (EvSetVerbosity (verbosity c)) then 1 else 0)%nat.
Proof.
  intros Hp. rewrite launched_events, tally_cons, tally_app.
  destruct (planned c Server), (planned c Gui);
    rewrite ?tally_spawn_events by exact Hp; simpl; lia.
Qed.

(** ** Whom a run signals *)






Section Targets.

Context (E : env) (c : cmdline).












End Targets.







(** The server child whose [execvp] fails forks a GUI of its own and waits
    for it; its shutdown then interrupts that GUI and, with
    [kill(0, SIGINT)], its own process group. *)
Example run_of_server_child :
  take 12 (events (snd (main_in env_exec_fails server_child ["ign-gazebo"] no_flags)))
  = [EvSetVerbosity 1;
     EvFork Server 0;
     EvExec Server (Some "ign-gazebo-server") [Some "ign-gazebo-server"; None];
     EvFork Gui 300;
     EvExec Gui (Some "ign-gazebo-gui") [Some "ign-gazebo-gui"; None];
     EvWait 300 0;
     EvStore RefGui;
     EvRaise SIGINT;
     EvStore RefSig;
     EvKill 300 SIGINT;
     EvKill 0 SIGINT;
     EvWaitpid 0 (-1)].
Proof. vm_compute. reflexivity. Qed.

Lemma tally_stops p E argv c :
  launches c = false -> p EvHelp = false -> p EvVersion = false ->
  tally p (events (snd (main E argv c))) = 0%nat.
Proof.
  intros Hl Hh Hv.
  destruct (main_stops E argv c Hl) as [Hs | [Hs | Hs]]; rewrite Hs; simpl;
    rewrite ?Hh, ?Hv; reflexivity.
Qed.

(** How often a kind of call that is neither of the launch nor of the
    shutdown occurs in a launching run. *)
Lemma tally_main p E argv c :
  launches c = true ->
  (forall e, is_launch e = true -> p e = false) ->
  (forall e, is_shutdown e = true -> p e = false) ->
  tally p (events (snd (main E argv c)))
  = ((if p (EvSetVerbosity (verbosity c)) then 1 else 0)
     + (if p (EvWait (fst (wait_ret E)) (snd (wait_ret E))) then 1 else 0)
     + (if sigKilled (fl (snd (reap E c (launched E argv c)))) then 0
        else if p (EvRaise SIGINT) then 1 else 0))%nat.
Proof.
  intros Hl Hpl Hps.
  destruct (main_shape E argv c Hl) as (a & b & d & He & Hf).
  apply Forall_app in Hf as [Hfa Hf]. apply Forall_app in Hf as [Hfb Hfd].
  rewrite He, !tally_app, (tally_launched p E argv c Hpl).
  rewrite (tally_shutdown p a _ Hps Hfa), (tally_shutdown p b _ Hps Hfb),
    (tally_shutdown p d _ Hps Hfd).
  destruct (sigKilled _); simpl; lia.
Qed.

(** X6: a run calls [wait] once if it launches and never otherwise, also
    when no child was forked; it raises SIGINT once if [sigKilled] is false
    when it is tested after the [wait], and never otherwise: a run in which
    the callback already ran does not raise. *)
Theorem main_waits_once_raises_at_most_once E argv c :
  let evs := events (snd (main E argv c)) in
  tally is_wait evs = (if launches c then 1 else 0)%nat /\
  tally is_raise evs =
    (if launches c
        && negb (sigKilled (fl (snd (reap E c (launched E argv c)))))
     then 1 else 0)%nat.
Proof.
  cbn zeta. destruct (launches c) eqn:Hl.
  - rewrite !(tally_main _ E argv c Hl) by (intros e; now destruct e).
    destruct (sigKilled _); simpl; auto.
  - rewrite !(tally_stops _ E argv c Hl) by reflexivity. auto.
Qed.

(** ** The console verbosity *)

(** X7: a launching run sets the console verbosity once, as its first
    call and so before any fork; the level is the value of [--verbose]
    when it is given, otherwise the value of [-v] when it is given,
    otherwise 1, and it is always between 0 and 4. A run that does not
    launch never sets it. *)
Theorem verbosity_resolved E argv c :
  let evs := events (snd (main E argv c)) in
  tally is_set_verbosity evs = (if launches c then 1 else 0)%nat /\
  (launches c = true ->
   head evs = Some (EvSetVerbosity (verbosity c)) /\
   0 <= verbosity c <= 4) /\
  verbosity c =
    match FLAGS_verbose c, FLAGS_v c with
    | Some x, _ => x
    | None, Some y => y
    | None, None => 1
    end.
Proof.
  cbn zeta. split; [|split].
  - destruct (launches c) eqn:Hl.
    + rewrite (tally_main _ E argv c Hl) by (intros e; now destruct e).
      destruct (sigKilled _); reflexivity.
    + now rewrite (tally_stops _ E argv c Hl).
  - intros Hl. split.
    + destruct (main_shape E argv c Hl) as (a & b & d & He & _).
      rewrite He, launched_events. reflexivity.
    + unfold launches in Hl. apply andb_prop in Hl as [Hl _].
      apply andb_prop in Hl as [Hp _].
      rewrite parse_accepts in Hp. unfold verbosity.
      destruct (FLAGS_verbose c) as [x|] eqn:Hx; [apply Hp; auto|].
      destruct (FLAGS_v c) as [y|] eqn:Hy; [apply Hp; auto|]. lia.
  - reflexivity.
Qed.

(** ** A fork that fails *)

Lemma main_relayed E argv c :
  launches c = true -> relayed E c (events (snd (main E argv c))).
Proof.
  intros Hl. rewrite (main_launches _ _ _ Hl). cbn [snd].
  unfold supervise.
  pose proof (by_relay_reap E c _ (by_relay_launched E c argv)) as Hr.
  destruct (reap E c (launched E argv c)) as [rv st1]. cbn [snd] in *.
  eapply relayed_steps; [apply deliver_steps|].
  apply (by_relay_deliver E c (async E 3)) in Hr as H3.
  destruct (sigKilled (fl st1)) eqn:Hsig; cbn [negb].
  - destruct H3 as [_ H3]. apply H3.
    apply (steps_flags _ _ (deliver_steps E c (async E 3) st1) RefSig Hsig).
  - apply callback_relayed. destruct H3 as [H3 _].
    intros r Hp. rewrite <- (H3 r Hp). now destruct r.
Qed.

(** X8: [main] does not test what [fork] returns. When the fork of a
    planned child fails, no program is executed for that role, the run
    goes on, and its shutdown calls [kill(-1, SIGINT)]. *)
Theorem fork_failure_is_not_checked E argv c r :
  launches c = true ->
  planned c r = true ->
  fork_ret E r = None ->
  let evs := events (snd (main E argv c)) in
  In (EvFork r (-1)) evs /\
  (forall file args, ~ In (EvExec r file args) evs) /\
  In (EvKill (-1) SIGINT) evs /\
  tally is_wait evs = 1%nat.
Proof.
  intros Hl Hp Hf. cbn zeta.
  destruct (main_trace E argv c Hl) as (added & Ht & Ha).
  assert (He : events (snd (main E argv c))
               = events (launched E argv c) ++ map fst added)
    by (unfold events; now rewrite Ht, map_app).
  split_and!.
  - rewrite He, launched_events. apply in_or_app. left. right.
    apply in_or_app.
    destruct r; [left | right]; rewrite Hp; unfold spawn_events; rewrite Hf;
      left; reflexivity.
  - intros file args Hin. rewrite He in Hin. apply in_app_or in Hin as [Hin|Hin].
    + rewrite launched_events in Hin. destruct Hin as [Hin|Hin]; [discriminate|].
      apply in_app_or in Hin as [Hin|Hin].
      * destruct (planned c Server); [|destruct Hin].
        unfold spawn_events in Hin.
        destruct r; [rewrite Hf in Hin|];
          destruct (fork_ret E Server); simpl in Hin;
          intuition discriminate.
      * destruct (planned c Gui); [|destruct Hin].
        unfold spawn_events in Hin.
        destruct r; [|rewrite Hf in Hin];
          destruct (fork_ret E Gui); simpl in Hin;
          intuition discriminate.
    + apply in_map_iff in Hin as ([e f] & Hef & Hin). simpl in Hef. subst e.
      rewrite Forall_forall in Ha. apply list_elem_of_In in Hin.
      specialize (Ha _ Hin). discriminate.
  - destruct (main_relayed E argv c Hl) as (t1 & tg & ts & t2 & ->).
    apply in_or_app. right. apply in_or_app. left.
    unfold relay. right. apply in_or_app.
    assert (Hpid : child_pid E r = -1) by (unfold child_pid; now rewrite Hf).
    destruct r; simpl in Hp; rewrite Hp, Hpid; [right | left]; left; reflexivity.
  - rewrite (tally_main _ E argv c Hl) by (intros e; now destruct e).
    destruct (sigKilled _); reflexivity.
Qed.

Lemma fork_failure_is_not_checked_witness :
  let evs := events (snd (main env_gui_fork_fails ["ign-gazebo"] no_flags)) in
  In (EvFork Gui (-1)) evs /\
  (forall file args, ~ In (EvExec Gui file args) evs) /\
  In (EvKill (-1) SIGINT) evs /\
  tally is_wait evs = 1%nat.
Proof.
  apply (fork_failure_is_not_checked env_gui_fork_fails ["ign-gazebo"] no_flags Gui);
    reflexivity.
Defined.

(** ** The child that [wait] returned *)




(** ** The arrays handed to [execvp] *)

(** X10: the array that [new char*[_argc+1]] returns is not initialised;
    [main] assigns every one of its cells before use, so the vector a child
    receives does not depend on what the array held. *)
Theorem fill_argv_assigns_every_cell name (argv : list string) (a a' : cvec) :
  length a = S (length argv) ->
  length a' = S (length argv) ->
  fill_argv name argv a = fill_argv name argv a' /\
  length (fill_argv name argv a) = length a.
Proof.
  intros Ha Ha'. split.
  - now rewrite !fill_argv_spec.
  - unfold fill_argv. now rewrite length_insert, copy_loop_length, length_insert.
Qed.

Lemma fill_argv_assigns_every_cell_witness :
  let argv := ["ign-gazebo"; "-r"] in
  let a := [None; Some "x"; None] in
  let a' := [Some "y"; Some "y"; Some "y"] in
  fill_argv "ign-gazebo-gui" argv a = fill_argv "ign-gazebo-gui" argv a' /\
  length (fill_argv "ign-gazebo-gui" argv a) = length a.
Proof.
  apply (fill_argv_assigns_every_cell "ign-gazebo-gui" ["ign-gazebo"; "-r"]
           [None; Some "x"; None] [Some "y"; Some "y"; Some "y"]);
    reflexivity.
Defined.

(** X11: for a received vector that is not empty, the vector of a child
    has one cell more, starts with the name of the executable, and its
    null pointer is its last cell and no other, so [execvp] sees every
    argument. For an empty received vector ([_argc] is 0) the terminator
    is written over the name: the vector is the null pointer alone. *)
Theorem child_argv_null_terminated r (argv : list string) :
  match argv with
  | [] => child_argv r argv = [None]
  | _ :: _ =>
      length (child_argv r argv) = S (length argv) /\
      child_argv r argv !! 0%nat = Some (Some (exe_name r)) /\
      (forall i, child_argv r argv !! i = Some None <-> i = length argv)
  end.
Proof.
  rewrite child_argv_spec. destruct argv as [|x argv]; [reflexivity|].
  cbn [fmap list_fmap insert list_insert length app].
  split; [|split].
  - simpl. now rewrite length_app, length_fmap, Nat.add_comm.
  - reflexivity.
  - intros [|i]; simpl; [split; [discriminate | lia]|].
    rewrite lookup_app, list_lookup_fmap, length_fmap.
    destruct (argv !! i) as [y|] eqn:Hy; simpl.
    + apply lookup_lt_Some in Hy. split; [discriminate | lia].
    + apply lookup_ge_None in Hy.
      destruct (i - length argv)%nat as [|k] eqn:Hk; simpl.
      * split; [intros _; lia | reflexivity].
      * split; [discriminate | lia].
Qed.

(** * Properties of the DiffDrive system *)

Section DiffDriveProperties.

Import DiffDrive.

Context {ecm odometry time : Type} `{!Manager ecm} `{!Odometer odometry time}.

Implicit Types (d : data odometry) (m : ecm) (t : time).

Lemma is_empty_nil {A} (l : list A) : is_empty l = true <-> l = [].
Proof. destruct l; simpl; split; congruence. Qed.

Lemma find_joints_resolved m e names : forall js,
  find_joints m e names js = js ++ resolved m e names.
Proof.
  unfold find_joints, resolved.
  induction names as [|n names IH]; intros js; simpl.
  - now rewrite app_nil_r.
  - rewrite IH. destruct (_ =? _)%N; simpl; [reflexivity|].
    now rewrite <- app_assoc.
Qed.

(** [UpdateOdometry] leaves everything but the odometry alone. *)
Lemma UpdateOdometry_frame t m d d' m' msgs :
  UpdateOdometry t m d = Some (d', m', msgs) ->
  exists o, d' = set_odom o d.
Proof.
  unfold UpdateOdometry. intros H.
  destruct (leftJoints d !! 0%nat); [|discriminate].
  destruct (rightJoints d !! 0%nat); [|discriminate].
  destruct (negb (Initialized (odom d))).
  { injection H as <- _ _. eauto. }
  destruct (pos m _) as [lp|];
    destruct (pos _ _) as [rp|];
    try (injection H as <- _ _; exists (odom d); now destruct d).
  destruct (lp !! 0%nat); [|discriminate].
  destruct (rp !! 0%nat); [|discriminate].
  injection H as <- _ _. eauto.
Qed.

Lemma PreUpdate_frame paused t m d d' m' msgs :
  PreUpdate paused t m d = Some (d', m', msgs) ->
  exists o, d' = set_odom o (discovered m d).
Proof.
  unfold PreUpdate. rewrite !find_joints_resolved. fold (discovered m d).
  set (d1 := discovered m d).
  destruct (is_empty (leftJoints d1) || is_empty (rightJoints d1)).
  { intros [= <- _ _]. exists (odom d1). now destruct d1. }
  destruct paused.
  { intros [= <- _ _]. exists (odom d1). now destruct d1. }
  apply UpdateOdometry_frame.
Qed.

Lemma set_odom_fields o d :
  leftJoints (set_odom o d) = leftJoints d /\
  rightJoints (set_odom o d) = rightJoints d /\
  leftJointNames (set_odom o d) = leftJointNames d /\
  rightJointNames (set_odom o d) = rightJointNames d /\
  leftJointSpeed (set_odom o d) = leftJointSpeed d /\
  rightJointSpeed (set_odom o d) = rightJointSpeed d /\
  wheelSeparation (set_odom o d) = wheelSeparation d /\
  wheelRadius (set_odom o d) = wheelRadius d /\
  model (set_odom o d) = model d.
Proof. repeat split. Qed.

Lemma discovered_fields m d :
  leftJointNames (discovered m d) = leftJointNames d /\
  rightJointNames (discovered m d) = rightJointNames d /\
  leftJointSpeed (discovered m d) = leftJointSpeed d /\
  rightJointSpeed (discovered m d) = rightJointSpeed d /\
  wheelSeparation (discovered m d) = wheelSeparation d /\
  wheelRadius (discovered m d) = wheelRadius d /\
  model (discovered m d) = model d /\
  odom (discovered m d) = odom d.
Proof. unfold discovered. destruct (_ || _); repeat split. Qed.

Lemma discovered_joints m d :
  (exists l r, leftJoints (discovered m d) = leftJoints d ++ l /\
               rightJoints (discovered m d) = rightJoints d ++ r) /\
  (leftJoints d <> [] -> rightJoints d <> [] -> discovered m d = d).
Proof.
  unfold discovered. split.
  - destruct (_ || _); simpl; eauto.
    exists [], []. now rewrite !app_nil_r.
  - intros Hl Hr. destruct (leftJoints d); [congruence|].
    destruct (rightJoints d); [congruence|]. reflexivity.
Qed.

(** X12: over any sequence of calls of [PreUpdate] that stays within the
    bounds of its vectors, the joint names, the two speeds, the wheel
    parameters and the model are never changed, joints are only ever
    pushed behind the ones already found, and once both sides have a
    joint the two lists are frozen: names that resolve later, or
    differently, are never looked up again. *)
Theorem DiffDrive_joints_frozen calls : forall d d' outs,
  updates calls d = Some (d', outs) ->
  (leftJointNames d' = leftJointNames d /\
   rightJointNames d' = rightJointNames d /\
   leftJointSpeed d' = leftJointSpeed d /\
   rightJointSpeed d' = rightJointSpeed d /\
   wheelSeparation d' = wheelSeparation d /\
   wheelRadius d' = wheelRadius d /\
   model d' = model d) /\
  (exists l r, leftJoints d' = leftJoints d ++ l /\
               rightJoints d' = rightJoints d ++ r) /\
  (leftJoints d <> [] -> rightJoints d <> [] ->
   leftJoints d' = leftJoints d /\ rightJoints d' = rightJoints d).
Proof.
  induction calls as [|[[paused t] m] calls IH]; intros d d' outs H.
  { injection H as <- _. split_and!; auto.
    exists [], []. now rewrite !app_nil_r. }
  cbn [updates] in H.
  destruct (PreUpdate paused t m d) as [[[d1 m1] msgs]|] eqn:Hp; [|discriminate].
  destruct (updates calls d1) as [[d2 outs2]|] eqn:Hu; [|discriminate].
  injection H as <- _.
  destruct (PreUpdate_frame _ _ _ _ _ _ _ Hp) as (o & ->).
  destruct (IH _ _ _ Hu) as (Hsame & (l2 & r2 & Hl2 & Hr2) & Hfrozen).
  destruct (discovered_fields m d) as (E1 & E2 & E3 & E4 & E5 & E6 & E7 & _).
  destruct (discovered_joints m d) as ((l1 & r1 & Hl1 & Hr1) & Hd).
  cbn [set_odom leftJoints rightJoints leftJointNames rightJointNames
       leftJointSpeed rightJointSpeed wheelSeparation wheelRadius model]
    in Hsame, Hl2, Hr2, Hfrozen.
  split_and!; try (destruct Hsame as (? & ? & ? & ? & ? & ? & ?); congruence).
  - exists (l1 ++ l2), (r1 ++ r2). rewrite Hl2, Hr2, Hl1, Hr1, <- !app_assoc. auto.
  - intros Hl Hr. rewrite (Hd Hl Hr) in Hfrozen. now apply Hfrozen.
Qed.

(** While a side has no joint, a call looks the names up and returns. *)
Lemma PreUpdate_unresolved paused t m d :
  leftJoints (discovered m d) = [] \/ rightJoints (discovered m d) = [] ->
  PreUpdate paused t m d = Some (discovered m d, m, []).
Proof.
  intros H. unfold PreUpdate. rewrite !find_joints_resolved.
  fold (discovered m d).
  assert (He : is_empty (leftJoints (discovered m d))
               || is_empty (rightJoints (discovered m d)) = true).
  { apply orb_true_iff. destruct H as [H|H]; rewrite H; auto. }
  now rewrite He.
Qed.

(** X13: while the right side has no joint and none of its names
    resolves, every call of [PreUpdate], paused or not, pushes the joints
    that the left names resolve to once more behind the left list, so the
    list grows by a copy at each call; the manager is returned as it was
    and nothing is published. *)
Theorem DiffDrive_unresolved_side_accumulates calls : forall d,
  rightJoints d = [] ->
  Forall (fun c => resolved (snd c) (model d) (rightJointNames d) = []) calls ->
  updates calls d =
  Some (set_joints
          (leftJoints d
           ++ flat_map (fun c => resolved (snd c) (model d) (leftJointNames d))
                       calls)
          [] d,
        map (fun c => (snd c, [])) calls).
Proof.
  induction calls as [|[[paused t] m] calls IH]; intros d Hr Hf.
  { simpl. rewrite app_nil_r. destruct d; simpl in *. now subst. }
  apply Forall_cons in Hf as [Hm Hf]. simpl in Hm.
  assert (Hd : discovered m d
               = set_joints (leftJoints d ++ resolved m (model d) (leftJointNames d))
                            [] d).
  { unfold discovered. rewrite Hr, Hm, orb_true_r. reflexivity. }
  cbn [updates]. rewrite PreUpdate_unresolved by (right; now rewrite Hd).
  rewrite Hd, IH; [|reflexivity|exact Hf].
  cbn [set_joints leftJoints rightJoints leftJointNames rightJointNames model
       map flat_map snd].
  now rewrite <- app_assoc.
Qed.

End DiffDriveProperties.

Lemma DiffDrive_joints_frozen_witness :
  let calls := [(false, 0, DiffDrive.two_wheels); (true, 1, DiffDrive.one_wheel);
                (false, 2, DiffDrive.one_wheel)] in
  let d := DiffDrive.configured in
  let r := DiffDrive.get (DiffDrive.updates calls d) (d, []) in
  let d' := fst r in
  (DiffDrive.leftJointNames d' = DiffDrive.leftJointNames d /\
   DiffDrive.rightJointNames d' = DiffDrive.rightJointNames d /\
   DiffDrive.leftJointSpeed d' = DiffDrive.leftJointSpeed d /\
   DiffDrive.rightJointSpeed d' = DiffDrive.rightJointSpeed d /\
   DiffDrive.wheelSeparation d' = DiffDrive.wheelSeparation d /\
   DiffDrive.wheelRadius d' = DiffDrive.wheelRadius d /\
   DiffDrive.model d' = DiffDrive.model d) /\
  (exists l r, DiffDrive.leftJoints d' = DiffDrive.leftJoints d ++ l /\
               DiffDrive.rightJoints d' = DiffDrive.rightJoints d ++ r) /\
  (DiffDrive.leftJoints d <> [] -> DiffDrive.rightJoints d <> [] ->
   DiffDrive.leftJoints d' = DiffDrive.leftJoints d /\
   DiffDrive.rightJoints d' = DiffDrive.rightJoints d).
Proof.
  cbv zeta.
  apply (DiffDrive_joints_frozen
           [(false, 0, DiffDrive.two_wheels); (true, 1, DiffDrive.one_wheel);
            (false, 2, DiffDrive.one_wheel)]
           DiffDrive.configured _
           (snd (DiffDrive.get
                   (DiffDrive.updates
                      [(false, 0, DiffDrive.two_wheels);
                       (true, 1, DiffDrive.one_wheel);
                       (false, 2, DiffDrive.one_wheel)]
                      DiffDrive.configured)
                   (DiffDrive.configured, [])))).
  vm_compute. reflexivity.
Defined.

Lemma DiffDrive_unresolved_side_accumulates_witness :
  let calls := [(false, 0, DiffDrive.one_wheel); (true, 1, DiffDrive.one_wheel);
                (false, 2, DiffDrive.one_wheel)] in
  let d := DiffDrive.configured in
  DiffDrive.updates calls d =
  Some (DiffDrive.set_joints
          (DiffDrive.leftJoints d
           ++ flat_map (fun c => DiffDrive.resolved (snd c) (DiffDrive.model d)
                                   (DiffDrive.leftJointNames d))
                       calls)
          [] d,
        map (fun c => (snd c, [])) calls).
Proof.
  apply (DiffDrive_unresolved_side_accumulates
           [(false, 0, DiffDrive.one_wheel); (true, 1, DiffDrive.one_wheel);
            (false, 2, DiffDrive.one_wheel)] DiffDrive.configured).
  - reflexivity.
  - repeat constructor.
Defined.

(** The left list after three calls in which the right wheel is missing
    holds the left wheel three times. *)
Example DiffDrive_three_copies :
  DiffDrive.leftJoints
    (fst (DiffDrive.get
            (DiffDrive.updates
               [(false, 0, DiffDrive.one_wheel); (true, 1, DiffDrive.one_wheel);
                (false, 2, DiffDrive.one_wheel)] DiffDrive.configured)
            (DiffDrive.configured, [])))
  = [7%N; 7%N; 7%N].
Proof. vm_compute. reflexivity. Qed.

Section DiffDriveCommands.

Import DiffDrive.

Context {ecm odometry time : Type} `{!Manager ecm} `{!Odometer odometry time}.

Implicit Types (d : data odometry) (m : ecm) (t : time).

(** The velocity commands after one of the two loops. *)
Lemma fold_write_cmd `{!ManagerLaws ecm} speed js : forall m j,
  cmd (fold_left (write_cmd speed) js m) j =
  if decide (j ∈ js) then Some [speed] else cmd m j.
Proof.
  induction js as [|a js IH]; intros m j; cbn [fold_left].
  - rewrite decide_False by apply not_elem_of_nil. reflexivity.
  - rewrite IH.
    assert (Ha : cmd (write_cmd speed m a) j
                 = if (a =? j)%N then Some [speed] else cmd m j).
    { unfold write_cmd. destruct (cmd m a); [apply cmd_assign | apply cmd_create]. }
    rewrite Ha.
    destruct (decide (j ∈ js)) as [Hin|Hnin].
    + rewrite decide_True by (right; exact Hin). reflexivity.
    + destruct (N.eqb_spec a j) as [->|Hne].
      * rewrite decide_True by left. reflexivity.
      * rewrite decide_False; [reflexivity|].
        intros [Heq|Hin]%elem_of_cons; [congruence | contradiction].
Qed.

(** [UpdateOdometry] creates no velocity command and changes none. *)
Lemma UpdateOdometry_cmd `{!ManagerLaws ecm} t m d d' m' msgs j :
  UpdateOdometry t m d = Some (d', m', msgs) -> cmd m' j = cmd m j.
Proof.
  unfold UpdateOdometry. intros H.
  destruct (leftJoints d !! 0%nat) as [l0|]; [|discriminate].
  destruct (rightJoints d !! 0%nat) as [r0|]; [|discriminate].
  set (m1 := match pos m l0 with None => create_pos l0 [] m | Some _ => m end) in *.
  set (m2 := match pos m1 r0 with None => create_pos r0 [] m1 | Some _ => m1 end) in *.
  assert (H1 : cmd m1 j = cmd m j)
    by (unfold m1; destruct (pos m l0); [reflexivity | apply cmd_create_pos]).
  assert (H2 : cmd m2 j = cmd m j)
    by (unfold m2; destruct (pos m1 r0); [exact H1 | now rewrite cmd_create_pos]).
  destruct (negb (Initialized (odom d))); [now injection H as _ <- _|].
  destruct (pos m l0) as [lp|]; destruct (pos m1 r0) as [rp|];
    try (now injection H as _ <- _).
  destruct (lp !! 0%nat); [|discriminate].
  destruct (rp !! 0%nat); [|discriminate].
  now injection H as _ <- _.
Qed.

(** The commands after a call that is not paused and has joints on both
    sides. *)
Lemma PreUpdate_cmd `{!ManagerLaws ecm} t m d d' m' msgs j :
  PreUpdate false t m d = Some (d', m', msgs) ->
  leftJoints d' <> [] -> rightJoints d' <> [] ->
  cmd m' j =
  if decide (j ∈ rightJoints d') then Some [rightJointSpeed d]
  else if decide (j ∈ leftJoints d') then Some [leftJointSpeed d]
  else cmd m j.
Proof.
  intros H Hl Hr.
  destruct (PreUpdate_frame _ _ _ _ _ _ _ H) as (o & Hd').
  assert (Hjl : leftJoints d' = leftJoints (discovered m d)) by now subst d'.
  assert (Hjr : rightJoints d' = rightJoints (discovered m d)) by now subst d'.
  destruct (discovered_fields m d) as (_ & _ & Hls & Hrs & _).
  unfold PreUpdate in H. rewrite !find_joints_resolved in H.
  fold (discovered m d) in H.
  rewrite Hjl, Hjr in *. clear Hjl Hjr Hd'.
  set (d1 := discovered m d) in *.
  destruct (leftJoints d1) as [|l0 ls] eqn:El; [congruence|].
  destruct (rightJoints d1) as [|r0 rs] eqn:Er; [congruence|].
  cbn [is_empty orb] in H.
  rewrite <- El, <- Er in H.
  rewrite (UpdateOdometry_cmd _ _ _ _ _ _ j H), !fold_write_cmd.
  rewrite Hls, Hrs, El, Er. reflexivity.
Qed.

(** X14: after a Twist message with linear velocity [lin] and angular
    velocity [ang] and a call of [PreUpdate] that is not paused, returns
    and has joints on both sides, every right joint holds the velocity
    command [(lin + ang * wheelSeparation / 2) / wheelRadius], every left
    joint that is not also a right joint holds
    [(lin - ang * wheelSeparation / 2) / wheelRadius], both as computed in
    double precision, and the command of every other entity is
    untouched. *)
Theorem DiffDrive_commands_reach_joints `{!ManagerLaws ecm}
    lin ang t m d0 d' m' msgs :
  PreUpdate false t m (OnCmdVel lin ang d0) = Some (d', m', msgs) ->
  leftJoints d' <> [] -> rightJoints d' <> [] ->
  (forall j, j ∈ rightJoints d' ->
     cmd m' j
     = Some [((lin + ang * wheelSeparation d0 / 2) / wheelRadius d0)%float]) /\
  (forall j, j ∈ leftJoints d' -> j ∉ rightJoints d' ->
     cmd m' j
     = Some [((lin - ang * wheelSeparation d0 / 2) / wheelRadius d0)%float]) /\
  (forall j, j ∉ leftJoints d' -> j ∉ rightJoints d' -> cmd m' j = cmd m j).
Proof.
  intros H Hl Hr.
  pose proof (fun j => PreUpdate_cmd _ _ _ _ _ _ j H Hl Hr) as Hc.
  cbn [OnCmdVel set_speeds leftJointSpeed rightJointSpeed] in Hc.
  split_and!; intros j; intros; rewrite Hc.
  - now rewrite decide_True.
  - rewrite decide_False by assumption. now rewrite decide_True.
  - now rewrite !decide_False.
Qed.

(** X15: a call of [PreUpdate] publishes at most one odometry message,
    built from the odometry it has just updated; it publishes none while
    paused, none while a side has no joint, and none as long as the
    odometry is not initialised: such a call at most initialises it. A
    paused call returns the manager as it was. *)
Theorem DiffDrive_publication paused t m d d' m' msgs :
  PreUpdate paused t m d = Some (d', m', msgs) ->
  (msgs = [] \/
   exists l r,
     let o := Update l r t (odom d) in
     msgs = [mkOdometry (X o) (Y o) (0%float, 0%float, Heading o)
                        (LinearVelocity o) (AngularVelocity o)] /\
     odom d' = o) /\
  (msgs <> [] ->
   paused = false /\ Initialized (odom d) = true /\
   leftJoints d' <> [] /\ rightJoints d' <> []) /\
  (Initialized (odom d) = false ->
   msgs = [] /\ (odom d' = odom d \/ odom d' = Init t (odom d))) /\
  (paused = true -> msgs = [] /\ m' = m /\ odom d' = odom d).
Proof.
  intros H.
  destruct (discovered_fields m d) as (_ & _ & _ & _ & _ & _ & _ & Ho).
  unfold PreUpdate in H. rewrite !find_joints_resolved in H.
  fold (discovered m d) in H. set (d1 := discovered m d) in *.
  destruct (is_empty (leftJoints d1) || is_empty (rightJoints d1)) eqn:He.
  { injection H as <- <- <-. rewrite Ho. split_and!; auto; congruence. }
  destruct paused.
  { injection H as <- <- <-. rewrite Ho. split_and!; auto; congruence. }
  apply orb_false_iff in He as [Hel Her].
  assert (Hl : leftJoints d1 <> []) by (rewrite <- is_empty_nil; congruence).
  assert (Hr : rightJoints d1 <> []) by (rewrite <- is_empty_nil; congruence).
  unfold UpdateOdometry in H.
  destruct (leftJoints d1 !! 0%nat) as [l0|]; [|discriminate].
  destruct (rightJoints d1 !! 0%nat) as [r0|]; [|discriminate].
  rewrite Ho in H.
  destruct (Initialized (odom d)) eqn:Hi; cbn [negb] in H.
  - destruct (pos _ l0) as [lp|];
      [destruct (pos _ r0) as [rp|] | ].
    + destruct (lp !! 0%nat) as [l|]; [|discriminate].
      destruct (rp !! 0%nat) as [r|]; [|discriminate].
      injection H as <- <- <-. cbn [set_odom odom leftJoints rightJoints].
      split_and!; try discriminate; auto.
      right. exists l, r. auto.
    + injection H as <- <- <-. rewrite Ho. split_and!; auto; congruence.
    + injection H as <- <- <-. rewrite Ho. split_and!; auto; congruence.
  - injection H as <- <- <-. cbn [set_odom odom].
    split_and!; auto; congruence.
Qed.

End DiffDriveCommands.

Lemma assoc_N_cons {V} j (v : V) l j' :
  DiffDrive.assoc N.eqb j' ((j, v) :: l)
  = if (j =? j')%N then Some v else DiffDrive.assoc N.eqb j' l.
Proof. simpl. now rewrite N.eqb_sym. Qed.

#[global] Instance world_laws : DiffDrive.ManagerLaws DiffDrive.world.
Proof.
  split; intros j v m j'; simpl.
  - apply assoc_N_cons.
  - apply assoc_N_cons.
  - reflexivity.
  - reflexivity.
  - reflexivity.
Qed.

Lemma DiffDrive_commands_reach_joints_witness :
  let m := DiffDrive.two_wheels in
  let d0 := DiffDrive.configured in
  let lin := 1%float in
  let ang := 0.5%float in
  let r := DiffDrive.get
             (DiffDrive.PreUpdate false 0 m (DiffDrive.OnCmdVel lin ang d0))
             (d0, m, []) in
  let d' := fst (fst r) in
  let m' := snd (fst r) in
  (forall j, j ∈ DiffDrive.rightJoints d' ->
     DiffDrive.cmd m' j
     = Some [((lin + ang * DiffDrive.wheelSeparation d0 / 2)
              / DiffDrive.wheelRadius d0)%float]) /\
  (forall j, j ∈ DiffDrive.leftJoints d' -> j ∉ DiffDrive.rightJoints d' ->
     DiffDrive.cmd m' j
     = Some [((lin - ang * DiffDrive.wheelSeparation d0 / 2)
              / DiffDrive.wheelRadius d0)%float]) /\
  (forall j, j ∉ DiffDrive.leftJoints d' -> j ∉ DiffDrive.rightJoints d' ->
     DiffDrive.cmd m' j = DiffDrive.cmd m j).
Proof.
  cbv zeta.
  apply (DiffDrive_commands_reach_joints 1%float 0.5%float 0
           DiffDrive.two_wheels DiffDrive.configured _ _
           (snd (DiffDrive.get
                   (DiffDrive.PreUpdate false 0 DiffDrive.two_wheels
                      (DiffDrive.OnCmdVel 1 0.5 DiffDrive.configured))
                   (DiffDrive.configured, DiffDrive.two_wheels, [])))).
  - vm_compute. reflexivity.
  - vm_compute. discriminate.
  - vm_compute. discriminate.
Defined.

(** The two wheels of the sample robot after that message: 6.25 rad/s on
    the right, 3.75 rad/s on the left, for a separation of 1.0 and a radius
    of 0.2. *)
Example DiffDrive_sample_speeds :
  let r := DiffDrive.get
             (DiffDrive.PreUpdate false 0 DiffDrive.two_wheels
                (DiffDrive.OnCmdVel 1 0.5 DiffDrive.configured))
             (DiffDrive.configured, DiffDrive.two_wheels, []) in
  (DiffDrive.cmd (snd (fst r)) 7%N, DiffDrive.cmd (snd (fst r)) 8%N)
  = (Some [3.75%float], Some [6.25%float]).
Proof. vm_compute. reflexivity. Qed.

Lemma DiffDrive_publication_witness :
  let m := DiffDrive.two_wheels in
  let d := DiffDrive.configured in
  let r := DiffDrive.get (DiffDrive.PreUpdate false 0 m d) (d, m, []) in
  let d' := fst (fst r) in
  let m' := snd (fst r) in
  let msgs := snd r in
  (msgs = [] \/
   exists l r,
     let o := DiffDrive.Update l r 0 (DiffDrive.odom d) in
     msgs = [DiffDrive.mkOdometry (DiffDrive.X o) (DiffDrive.Y o)
               (0%float, 0%float, DiffDrive.Heading o)
               (DiffDrive.LinearVelocity o) (DiffDrive.AngularVelocity o)] /\
     DiffDrive.odom d' = o) /\
  (msgs <> [] ->
   false = false /\ DiffDrive.Initialized (DiffDrive.odom d) = true /\
   DiffDrive.leftJoints d' <> [] /\ DiffDrive.rightJoints d' <> []) /\
  (DiffDrive.Initialized (DiffDrive.odom d) = false ->
   msgs = [] /\
   (DiffDrive.odom d' = DiffDrive.odom d \/
    DiffDrive.odom d' = DiffDrive.Init 0 (DiffDrive.odom d))) /\
  (false = true ->
   msgs = [] /\ m' = m /\ DiffDrive.odom d' = DiffDrive.odom d).
Proof.
  cbv zeta.
  apply (DiffDrive_publication false 0 DiffDrive.two_wheels DiffDrive.configured).
  vm_compute. reflexivity.
Defined.

Section DiffDriveConfigure.

Import DiffDrive.

Context {ecm odometry time : Type} `{!Manager ecm} `{!Odometer odometry time}.

Implicit Types (d : data odometry) (m : ecm) (t : time).

Lemma resolved_nil m e : resolved m e [] = [].
Proof. reflexivity. Qed.

(** A side without joint and without name stays so. *)
Lemma updates_without_names calls : forall d,
  (leftJoints d = [] /\ leftJointNames d = []) \/
  (rightJoints d = [] /\ rightJointNames d = []) ->
  exists d', updates calls d = Some (d', map (fun c => (snd c, [])) calls).
Proof.
  induction calls as [|[[paused t] m] calls IH]; intros d Hd; [simpl; eauto|].
  assert (Hdisc : (leftJoints (discovered m d) = []
                   /\ leftJointNames (discovered m d) = []) \/
                  (rightJoints (discovered m d) = []
                   /\ rightJointNames (discovered m d) = [])).
  { unfold discovered.
    destruct Hd as [[Hj Hn]|[Hj Hn]]; rewrite Hj, Hn, ?orb_true_r; simpl; auto. }
  cbn [updates]. rewrite PreUpdate_unresolved by tauto.
  destruct (IH _ Hdisc) as (d' & ->). simpl. eauto.
Qed.

(** X16: when [Configure] fails because the entity is not a model, it
    only logs an error: it reads no parameter, subscribes to nothing and
    advertises nothing, and from a freshly constructed plugin every call of
    [PreUpdate] afterwards returns the state and the manager as they were
    and publishes nothing. The same silence holds, without any error, when
    the plugin element names no joint for one of the sides. *)
Theorem DiffDrive_without_joint_names_is_inert e sdf m0 o calls :
  Valid m0 e = false \/ left_joint sdf = [] \/ right_joint sdf = [] ->
  let d := fst (Configure e sdf m0 (fresh o)) in
  (exists d', updates calls d = Some (d', map (fun c => (snd c, [])) calls)) /\
  (Valid m0 e = false ->
   Configure e sdf m0 (fresh o)
   = (mkData [] [] [] [] 0%float 0%float 1%float 0x1.999999999999ap-3%float e o,
      [Err "DiffDrive plugin should be attached to a model entity. Failed to initialize."]) /\
   updates calls d = Some (d, map (fun c => (snd c, [])) calls)).
Proof.
  intros H. cbn zeta. split.
  - apply updates_without_names. unfold Configure, fresh. cbn [model].
    destruct (Valid m0 e); cbn [negb fst leftJoints rightJoints leftJointNames
      rightJointNames app]; [|auto].
    destruct H as [H|[H|H]]; [discriminate | |]; rewrite H; auto.
  - intros Hv. unfold Configure, fresh. cbn [model]. rewrite Hv.
    cbn [negb fst]. split; [reflexivity|].
    set (d := mkData _ _ _ _ _ _ _ _ _ _).
    clear H. induction calls as [|[[paused t] m] calls IH]; [reflexivity|].
    cbn [updates]. rewrite PreUpdate_unresolved by (left; reflexivity).
    change (discovered m d) with d. rewrite IH. reflexivity.
Qed.

End DiffDriveConfigure.

Lemma DiffDrive_without_joint_names_is_inert_witness :
  let m0 := DiffDrive.mkWorld false "box" [] [] [] in
  let o := (false, (0%float, 0%float)) in
  let calls := [(false, 0, DiffDrive.two_wheels); (true, 1, DiffDrive.one_wheel)] in
  let d := fst (DiffDrive.Configure 3%N DiffDrive.two_wheels_sdf m0
                  (DiffDrive.fresh o)) in
  (exists d', DiffDrive.updates calls d
              = Some (d', map (fun c => (snd c, [])) calls)) /\
  (DiffDrive.Valid m0 3%N = false ->
   DiffDrive.Configure 3%N DiffDrive.two_wheels_sdf m0 (DiffDrive.fresh o)
   = (DiffDrive.mkData [] [] [] [] 0%float 0%float 1%float
        0x1.999999999999ap-3%float 3%N o,
      [DiffDrive.Err "DiffDrive plugin should be attached to a model entity. Failed to initialize."]) /\
   DiffDrive.updates calls d = Some (d, map (fun c => (snd c, [])) calls)).
Proof.
  cbv zeta.
  apply (DiffDrive_without_joint_names_is_inert 3%N DiffDrive.two_wheels_sdf
           (DiffDrive.mkWorld false "box" [] [] [])
           (false, (0%float, 0%float))
           [(false, 0, DiffDrive.two_wheels); (true, 1, DiffDrive.one_wheel)]).
  left. reflexivity.
Defined.

Section DiffDriveBounds.

Import DiffDrive.

Context {ecm odometry time : Type} `{!Manager ecm} `{!Odometer odometry time}
  `{!ManagerLaws ecm}.

Implicit Types (d : data odometry) (m : ecm) (t : time).

(** The velocity loops leave the joint positions alone. *)
Lemma fold_write_pos speed js : forall m j,
  pos (fold_left (write_cmd speed) js m) j = pos m j.
Proof.
  induction js as [|a js IH]; intros m j; cbn [fold_left]; [reflexivity|].
  rewrite IH. unfold write_cmd.
  destruct (cmd m a); [apply pos_assign_cmd | apply pos_create_cmd].
Qed.

(** X21: the accesses [leftJoints[0]] and [rightJoints[0]] of a call of
    [PreUpdate] are always within bounds. The only read outside the bounds
    of a vector that a call can make is [Data()[0]] on a [JointPosition]
    component that exists with no data (as the components that
    [UpdateOdometry] itself creates): it happens exactly when the call is
    not paused, the odometry is initialised, and the first left and first
    right joint both have the component, one of them without data. *)
Theorem DiffDrive_only_position_data_can_be_out_of_bounds paused t m d :
  PreUpdate paused t m d = None <->
  paused = false /\ Initialized (odom d) = true /\
  exists l0 r0 lp rp,
    leftJoints (discovered m d) !! 0%nat = Some l0 /\
    rightJoints (discovered m d) !! 0%nat = Some r0 /\
    pos m l0 = Some lp /\ pos m r0 = Some rp /\
    (lp = [] \/ rp = []).
Proof.
  destruct (discovered_fields m d) as (_ & _ & _ & _ & _ & _ & _ & Ho).
  unfold PreUpdate. rewrite !find_joints_resolved. fold (discovered m d).
  set (d1 := discovered m d) in *.
  destruct (leftJoints d1) as [|l0 ls] eqn:El.
  { cbn. split; [discriminate|]. now intros (_ & _ & ? & ? & ? & ? & ? & _). }
  destruct (rightJoints d1) as [|r0 rs] eqn:Er.
  { cbn. split; [discriminate|]. now intros (_ & _ & ? & ? & ? & ? & _ & ? & _). }
  cbn [is_empty orb lookup list_lookup].
  destruct paused.
  { split; [discriminate | intros [? _]; discriminate]. }
  unfold UpdateOdometry. rewrite El, Er. cbn [lookup list_lookup].
  rewrite Ho, fold_write_pos, fold_write_pos.
  destruct (Initialized (odom d)) eqn:Hi; cbn [negb].
  2:{ split; [discriminate | intros (_ & ? & _); discriminate]. }
  destruct (pos m l0) as [lp|] eqn:Hl.
  2:{ destruct (pos _ r0);
        (split; [discriminate | intros (_ & _ & ? & ? & ? & ? & [= <-] & _ & ? & _)]);
        congruence. }
  rewrite fold_write_pos, fold_write_pos.
  destruct (pos m r0) as [rp|] eqn:Hr.
  2:{ split; [discriminate|].
      intros (_ & _ & ? & ? & ? & ? & _ & [= <-] & _ & ? & _). congruence. }
  destruct lp as [|x lp]; cbn [lookup list_lookup].
  { split; [intros _ | reflexivity]. split_and!; auto.
    exists l0, r0, [], rp. split_and!; auto. }
  destruct rp as [|y rp]; cbn [lookup list_lookup].
  { split; [intros _ | reflexivity]. split_and!; auto.
    exists l0, r0, (x :: lp), []. split_and!; auto. }
  split; [discriminate|].
  intros (_ & _ & l0' & r0' & lp' & rp' & [= <-] & [= <-] & Hl' & Hr' & Hor).
  rewrite Hl in Hl'. rewrite Hr in Hr'.
  injection Hl' as <-. injection Hr' as <-. destruct Hor; discriminate.
Qed.

End DiffDriveBounds.

(** The sample robot when both wheels have a position without data. *)
Lemma DiffDrive_only_position_data_can_be_out_of_bounds_witness :
  let m := DiffDrive.mkWorld true "robot"
             [("left_wheel", 7%N); ("right_wheel", 8%N)] []
             [(7%N, []); (8%N, [])] in
  let d := DiffDrive.set_odom (true, (0%float, 0%float)) DiffDrive.configured in
  DiffDrive.PreUpdate false 1 m d = None <->
  false = false /\ DiffDrive.Initialized (DiffDrive.odom d) = true /\
  exists l0 r0 lp rp,
    DiffDrive.leftJoints (DiffDrive.discovered m d) !! 0%nat = Some l0 /\
    DiffDrive.rightJoints (DiffDrive.discovered m d) !! 0%nat = Some r0 /\
    DiffDrive.pos m l0 = Some lp /\ DiffDrive.pos m r0 = Some rp /\
    (lp = [] \/ rp = []).
Proof.
  apply DiffDrive_only_position_data_can_be_out_of_bounds.
Defined.

Example DiffDrive_empty_position_is_read :
  DiffDrive.PreUpdate false 1
    (DiffDrive.mkWorld true "robot"
       [("left_wheel", 7%N); ("right_wheel", 8%N)] [] [(7%N, []); (8%N, [])])
    (DiffDrive.set_odom (true, (0%float, 0%float)) DiffDrive.configured)
  = None.
Proof. vm_compute. reflexivity. Qed.

(** * Properties of the ParticleEmitter system *)

Section ParticleEmitterProperties.

Import ParticleEmitter.

Context {Pose3d Vector3d Color Material : Type} (kNullEntity : Entity).

Local Abbreviation Emitter := (@ParticleEmitter.Emitter Pose3d Vector3d Color Material).
Local Abbreviation data := (@ParticleEmitter.data Pose3d Vector3d Color Material).
Local Abbreviation input := (@ParticleEmitter.input Pose3d Vector3d Color Material).
Local Abbreviation call := (@ParticleEmitter.call Pose3d Vector3d Color Material).
Local Abbreviation PreUpdate := (ParticleEmitter.PreUpdate kNullEntity).
Local Abbreviation step := (ParticleEmitter.step kNullEntity).
Local Abbreviation run := (ParticleEmitter.run kNullEntity).

Implicit Types (d : data) (m : Emitter) (e : Entity) (inputs : list input).

Lemma run_app inputs1 : forall inputs2 d,
  run (inputs1 ++ inputs2) d =
  (fst (run inputs2 (fst (run inputs1 d))),
   snd (run inputs1 d) ++ snd (run inputs2 (fst (run inputs1 d)))).
Proof.
  induction inputs1 as [|i inputs1 IH]; intros inputs2 d; simpl.
  - now destruct (run inputs2 d).
  - destruct (step i d) as [d1 c1]. rewrite IH.
    destruct (run inputs1 d1) as [d2 c2]. simpl.
    now rewrite app_assoc.
Qed.

(** Paused updates change nothing and call nothing. *)
Lemma run_paused quiet : forall d,
  Forall (fun i => is_paused_update i = true) quiet -> run quiet d = (d, []).
Proof.
  induction quiet as [|i quiet IH]; intros d Hq; [reflexivity|].
  apply Forall_cons in Hq as [Hi Hq]. destruct i as [m|[|] e]; try discriminate.
  simpl. unfold ParticleEmitter.PreUpdate.
  destruct (negb (newDataReceived d)); rewrite IH by exact Hq; reflexivity.
Qed.

(** X17: a command message replaces whatever command was pending; it
    stays pending through any number of paused updates, which call
    nothing; the first update that is not paused creates one entity and
    one command component on it, holding exactly that message, and clears
    the pending flag. *)
Theorem ParticleEmitter_latest_command_applied before m quiet e d :
  Forall (fun i => is_paused_update i = true) quiet ->
  e <> kNullEntity ->
  run (before ++ Cmd m :: quiet ++ [Update false e]) d =
  (mkData m false,
   snd (run before d)
   ++ [Err "OnCmd"; CreateEntity e; CreateParticleEmitterCmd e m;
       Dbg "New ParticleEmitterCmd component created"]).
Proof.
  intros Hq He. rewrite run_app.
  assert (H : run (Cmd m :: quiet ++ [Update false e]) (fst (run before d))
              = (mkData m false,
                 [Err "OnCmd"; CreateEntity e; CreateParticleEmitterCmd e m;
                  Dbg "New ParticleEmitterCmd component created"])).
  { cbn [ParticleEmitter.run ParticleEmitter.step ParticleEmitter.OnCmd].
    rewrite run_app, (run_paused quiet _ Hq). cbn [fst snd app].
    cbn [ParticleEmitter.run ParticleEmitter.step].
    unfold ParticleEmitter.PreUpdate. cbn [newDataReceived userCmd negb].
    destruct (N.eqb_spec e kNullEntity); [contradiction | reflexivity]. }
  now rewrite H.
Qed.

(** How many inputs are command messages. *)
Lemma commands_app (l1 l2 : list call) :
  commands (l1 ++ l2) = commands l1 ++ commands l2.
Proof. unfold commands. apply flat_map_app. Qed.

Lemma step_commands i d :
  let d' := fst (step i d) in
  let cs := commands (snd (step i d)) in
  (length cs + (if newDataReceived d' then 1 else 0)
   <= (if is_cmd i then 1 else 0) + (if newDataReceived d then 1 else 0))%nat /\
  (forall e m, In (e, m) cs ->
     e <> kNullEntity /\ newDataReceived d = true /\ m = userCmd d) /\
  (newDataReceived d' = true ->
   (exists m, i = Cmd m /\ userCmd d' = m) \/
   (newDataReceived d = true /\ userCmd d' = userCmd d)).
Proof.
  destruct i as [m|paused e]; simpl.
  - split_and!; [destruct (newDataReceived d); lia | intros ? ? [] | eauto].
  - unfold ParticleEmitter.PreUpdate.
    destruct (newDataReceived d) eqn:Hn; simpl.
    + destruct paused; simpl.
      * rewrite Hn. split_and!; [lia | intros ? ? [] | auto].
      * destruct (N.eqb_spec e kNullEntity) as [->|Hne]; simpl.
        -- split_and!; [lia | intros ? ? [] | discriminate].
        -- split_and!; [lia | | discriminate].
           intros e' m' [[= <- <-]|[]]. auto.
    + rewrite Hn. split_and!; [lia | intros ? ? [] | discriminate].
Qed.

Lemma run_commands inputs : forall d,
  let d' := fst (run inputs d) in
  let cs := commands (snd (run inputs d)) in
  (length cs + (if newDataReceived d' then 1 else 0)
   <= length (filter (fun i => is_cmd i = true) inputs)
      + (if newDataReceived d then 1 else 0))%nat /\
  (forall e m, In (e, m) cs ->
     e <> kNullEntity /\
     (In (Cmd m) inputs \/ (newDataReceived d = true /\ m = userCmd d))).
Proof.
  induction inputs as [|i inputs IH]; intros d; cbn zeta.
  { simpl. split; [lia | intros ? ? []]. }
  cbn [ParticleEmitter.run].
  pose proof (step_commands i d) as (Hlen & Hin & Hpend). cbn zeta in *.
  destruct (step i d) as [d1 c1]. cbn [fst snd] in *.
  specialize (IH d1). cbn zeta in IH. destruct IH as (IHlen & IHin).
  destruct (run inputs d1) as [d2 c2]. cbn [fst snd] in *.
  rewrite commands_app, length_app. split.
  - rewrite filter_cons. destruct (decide (is_cmd i = true)) as [Hc|Hc].
    + rewrite Hc in Hlen. simpl. lia.
    + apply not_true_is_false in Hc. rewrite Hc in Hlen. lia.
  - intros e m H. apply in_app_or in H as [H|H].
    + destruct (Hin e m H) as (He & Hn & ->). auto.
    + destruct (IHin e m H) as (He & [Hc|[Hn ->]]).
      * split; [exact He|]. left. now right.
      * split; [exact He|].
        destruct (Hpend Hn) as [(m' & -> & ->)|[Hn' ->]]; [left; now left | auto].
Qed.

(** X18: started with no command pending, the system never creates more
    command components than it received command messages; every component
    it creates is on an entity that is not null and holds a message that
    was received. *)
Theorem ParticleEmitter_commands_applied_at_most_once inputs d :
  newDataReceived d = false ->
  let cs := commands (snd (run inputs d)) in
  (length cs <= length (filter (fun i => is_cmd i = true) inputs))%nat /\
  (forall e m, In (e, m) cs -> e <> kNullEntity /\ In (Cmd m) inputs).
Proof.
  intros Hd. pose proof (run_commands inputs d) as [Hlen Hin].
  cbn zeta in *. rewrite Hd in Hlen, Hin. split.
  - destruct (newDataReceived _); lia.
  - intros e m H. destruct (Hin e m H) as [He [Hc|[Hn _]]]; [auto | discriminate].
Qed.

(** Updates with nothing pending do nothing. *)
Lemma run_idle later : forall d,
  newDataReceived d = false ->
  Forall (fun i => is_cmd i = false) later ->
  run later d = (d, []).
Proof.
  induction later as [|i later IH]; intros d Hd Hl; [reflexivity|].
  apply Forall_cons in Hl as [Hi Hl]. destruct i as [m|paused e]; [discriminate|].
  simpl. unfold ParticleEmitter.PreUpdate. rewrite Hd. simpl.
  now rewrite IH.
Qed.

(** X19: an update that is not paused uses up the pending command
    whether or not the entity could be created: when [CreateEntity]
    returns the null entity the command is dropped, and no later update
    applies it, whatever [CreateEntity] returns then, until a new message
    arrives. More generally the updates that follow an update that is not
    paused call nothing as long as no message arrives. *)
Theorem ParticleEmitter_failed_entity_drops_command e later d :
  Forall (fun i => is_cmd i = false) later ->
  run (Update false e :: later) d = PreUpdate false e d /\
  (newDataReceived d = true ->
   run (Update false kNullEntity :: later) d =
   (mkData (userCmd d) false,
    [CreateEntity kNullEntity;
     Err "Failed to create a particle emitter entity command"])).
Proof.
  intros Hl.
  assert (H : forall e', run (Update false e' :: later) d = PreUpdate false e' d).
  { intros e'. cbn [ParticleEmitter.run ParticleEmitter.step].
    destruct (PreUpdate false e' d) as [d1 c1] eqn:Hp.
    assert (Hd1 : newDataReceived d1 = false).
    { unfold ParticleEmitter.PreUpdate in Hp.
      destruct (newDataReceived d) eqn:Hn; simpl in Hp.
      - destruct (e' =? kNullEntity)%N; injection Hp as <- _; reflexivity.
      - injection Hp as <- _. exact Hn. }
    rewrite run_idle by assumption. now rewrite app_nil_r. }
  split; [apply H|].
  intros Hn. rewrite H. unfold ParticleEmitter.PreUpdate.
  now rewrite Hn, N.eqb_refl.
Qed.

End ParticleEmitterProperties.

Lemma ParticleEmitter_latest_command_applied_witness :
  let before := [ParticleEmitter.Cmd (ParticleEmitter.smoke "old")] in
  let quiet := [ParticleEmitter.Update true 4%N; ParticleEmitter.Update true 5%N] in
  let m := ParticleEmitter.smoke "new" in
  ParticleEmitter.run 0%N
    (before ++ ParticleEmitter.Cmd m :: quiet ++ [ParticleEmitter.Update false 6%N])
    ParticleEmitter.idle =
  (ParticleEmitter.mkData m false,
   snd (ParticleEmitter.run 0%N before ParticleEmitter.idle)
   ++ [ParticleEmitter.Err "OnCmd"; ParticleEmitter.CreateEntity 6%N;
       ParticleEmitter.CreateParticleEmitterCmd 6%N m;
       ParticleEmitter.Dbg "New ParticleEmitterCmd component created"]).
Proof.
  apply (ParticleEmitter_latest_command_applied 0%N
           [ParticleEmitter.Cmd (ParticleEmitter.smoke "old")]
           (ParticleEmitter.smoke "new")
           [ParticleEmitter.Update true 4%N; ParticleEmitter.Update true 5%N]
           6%N ParticleEmitter.idle).
  - repeat constructor.
  - discriminate.
Defined.

Lemma ParticleEmitter_commands_applied_at_most_once_witness :
  let inputs := [ParticleEmitter.Cmd (ParticleEmitter.smoke "a");
                 ParticleEmitter.Cmd (ParticleEmitter.smoke "b");
                 ParticleEmitter.Update false 6%N;
                 ParticleEmitter.Update false 7%N] in
  let cs := ParticleEmitter.commands
              (snd (ParticleEmitter.run 0%N inputs ParticleEmitter.idle)) in
  (length cs
   <= length (filter (fun i => ParticleEmitter.is_cmd i = true) inputs))%nat /\
  (forall e m, In (e, m) cs -> e <> 0%N /\ In (ParticleEmitter.Cmd m) inputs).
Proof.
  apply (ParticleEmitter_commands_applied_at_most_once 0%N
           [ParticleEmitter.Cmd (ParticleEmitter.smoke "a");
            ParticleEmitter.Cmd (ParticleEmitter.smoke "b");
            ParticleEmitter.Update false 6%N;
            ParticleEmitter.Update false 7%N] ParticleEmitter.idle).
  reflexivity.
Defined.

Lemma ParticleEmitter_failed_entity_drops_command_witness :
  let later := [ParticleEmitter.Update true 4%N; ParticleEmitter.Update false 5%N] in
  let d := ParticleEmitter.mkData (ParticleEmitter.smoke "a") true in
  ParticleEmitter.run 0%N (ParticleEmitter.Update false 6%N :: later) d
  = ParticleEmitter.PreUpdate 0%N false 6%N d /\
  (ParticleEmitter.newDataReceived d = true ->
   ParticleEmitter.run 0%N (ParticleEmitter.Update false 0%N :: later) d =
   (ParticleEmitter.mkData (ParticleEmitter.userCmd d) false,
    [ParticleEmitter.CreateEntity 0%N;
     ParticleEmitter.Err "Failed to create a particle emitter entity command"])).
Proof.
  apply (ParticleEmitter_failed_entity_drops_command 0%N 6%N
           [ParticleEmitter.Update true 4%N; ParticleEmitter.Update false 5%N]
           (ParticleEmitter.mkData (ParticleEmitter.smoke "a") true)).
  repeat constructor.
Defined.

Section ParticleEmitterConfigure.

Import ParticleEmitter.

Context {Pose3d Vector3d Color MaterialElement Material : Type}
  (kNullEntity : Entity)
  (Pose3d_Zero : Pose3d) (Vector3d_One : Vector3d) (Color_White : Color)
  (to_string : Entity -> string)
  (convert : MaterialElement -> Material)
  (FindFile : string -> string -> string).

Local Abbreviation Sdf :=
  (@ParticleEmitter.Sdf Pose3d Vector3d Color MaterialElement).
Local Abbreviation Configure :=
  (ParticleEmitter.Configure kNullEntity Pose3d_Zero Vector3d_One Color_White
     to_string convert FindFile).


End ParticleEmitterConfigure.
